(** * dogen: artifact acquisition, target clean-up and descriptor loading

    A shallow embedding of [dogen/tools.py] (class [Artifact], [cleanup],
    [load_descriptor]) together with the behaviour of the few Python
    library calls it relies on, and the properties of the behavioural
    specification stated and proved over that embedding. *)

From Stdlib Require Import ZArith Ascii String.
From stdpp Require Import base option list strings gmap.

Open Scope string_scope.

(** ** Python values and library functions used by the module *)

Module Py.

(** [bytes] objects. *)
Definition bytes : Type := list Byte.byte.

(** Exceptions that can leave the functions of [tools.py].
    [DogenError msg cause] is [DogenError(msg)] when [cause] is [None]
    and [DogenError(msg, ex)] otherwise. *)
#[warnings="-register-all"]
Inductive exn : Type :=
| DogenError (msg : string) (cause : option exn)
| KeyError (key : string)
| AttributeError (attr : string)
| OSError (path : string)
| RequestException (url : string)
| YAMLError (descr : string)
| ValidatorError (descr : string).

Inductive result (A : Type) : Type :=
| Ok (a : A)
| Raise (e : exn).
Arguments Ok {A} a.
Arguments Raise {A} e.

(** State-and-exception monad: a raised exception keeps the state
    reached so far (effects performed before a [raise] persist). *)
Definition M (S A : Type) : Type := S → result A * S.

Definition ret {S A} (a : A) : M S A := λ s, (Ok a, s).
Definition raise {S A} (e : exn) : M S A := λ s, (Raise e, s).
Definition bind {S A B} (m : M S A) (k : A → M S B) : M S B :=
  λ s, match m s with
       | (Ok a, s') => k a s'
       | (Raise e, s') => (Raise e, s')
       end.
Definition gets {S A} (f : S → A) : M S A := λ s, (Ok (f s), s).
Definition modify {S} (f : S → S) : M S unit := λ s, (Ok tt, f s).
Definition lift_result {S A} (r : result A) : M S A := λ s, (r, s).

#[global] Instance M_ret {S} : MRet (M S) := λ A, ret.
#[global] Instance M_bind {S} : MBind (M S) := λ A B k m, bind m k.

(** [try: m except Exception as ex: h ex] *)
Definition try_except {S A} (m : M S A) (h : exn → M S A) : M S A :=
  λ s, match m s with
       | (Ok a, s') => (Ok a, s')
       | (Raise e, s') => h e s'
       end.

(** [for x in xs: body x] *)
Fixpoint for_each {S A} (xs : list A) (body : A → M S unit) : M S unit :=
  match xs with
  | [] => ret tt
  | x :: xs' => bind (body x) (λ _, for_each xs' body)
  end.

(** *** [str] methods

    A Python string is modelled as a string of 8-bit characters;
    [lower] acts on the ASCII letters, which is all a hex digest has. *)

Definition ascii_lower (c : ascii) : ascii :=
  let n := N_of_ascii c in
  if ((65 <=? n) && (n <=? 90))%N then ascii_of_N (n + 32) else c.

(** [s.lower()] *)
Fixpoint lower (s : string) : string :=
  match s with
  | EmptyString => EmptyString
  | String c s' => String (ascii_lower c) (lower s')
  end.

(** [s.startswith(p)] and [s.endswith(p)] *)
Definition startswith (s p : string) : bool := String.prefix p s.

Fixpoint endswith (s p : string) : bool :=
  if String.eqb s p then true
  else match s with
       | EmptyString => false
       | String _ s' => endswith s' p
       end.

(** [s.replace(old, new)] for a non-empty [old]: the occurrences are
    found left to right and do not overlap; [skip] counts the
    characters of a matched occurrence still to be dropped. *)
Fixpoint replace_go (old new : string) (skip : nat) (s : string) : string :=
  match s with
  | EmptyString => EmptyString
  | String c s' =>
      match skip with
      | S k => replace_go old new k s'
      | O =>
          if String.prefix old s
          then new +:+ replace_go old new (String.length old - 1) s'
          else String c (replace_go old new 0 s')
      end
  end.

(** With an empty [old], Python inserts [new] before every character
    and at the end. *)
Fixpoint replace_empty (new s : string) : string :=
  match s with
  | EmptyString => new
  | String c s' => new +:+ String c (replace_empty new s')
  end.

Definition replace (s old new : string) : string :=
  match old with
  | EmptyString => replace_empty new s
  | _ => replace_go old new 0 s
  end.

(** *** [os.path] (POSIX flavour) *)

Definition sep : string := "/".

Definition join2 (path b : string) : string :=
  if startswith b sep then b
  else if (String.eqb path "" || endswith path sep)%bool then path +:+ b
  else path +:+ sep +:+ b.

(** [os.path.join(a, *p)] *)
Definition join (a : string) (p : list string) : string := foldl join2 a p.

Fixpoint has_sep (s : string) : bool :=
  match s with
  | EmptyString => false
  | String c s' => (Ascii.eqb c "/" || has_sep s')%bool
  end.

(** [p[:p.rfind('/') + 1]] *)
Fixpoint head_of (p : string) : string :=
  match p with
  | EmptyString => EmptyString
  | String c p' =>
      if has_sep p' then String c (head_of p')
      else if Ascii.eqb c "/" then sep else EmptyString
  end.

Fixpoint all_sep (s : string) : bool :=
  match s with
  | EmptyString => true
  | String c s' => (Ascii.eqb c "/" && all_sep s')%bool
  end.

(** [s.rstrip('/')] *)
Fixpoint rstrip_sep (s : string) : string :=
  match s with
  | EmptyString => EmptyString
  | String c s' => if all_sep s then EmptyString else String c (rstrip_sep s')
  end.

(** [os.path.dirname(p)] *)
Definition dirname (p : string) : string :=
  let head := head_of p in
  if all_sep head then head else rstrip_sep head.

(** *** Chunked reading: [iter(lambda: f.read(n), b"")] and
    [res.iter_content(chunk_size=n)] both cut a byte sequence into
    consecutive pieces of at most [n] bytes. *)
Fixpoint chunks_fuel (fuel n : nat) (data : bytes) : list bytes :=
  match fuel with
  | O => []
  | S fuel' =>
      match data with
      | [] => []
      | _ => take n data :: chunks_fuel fuel' n (drop n data)
      end
  end.

Definition chunks (n : nat) (data : bytes) : list bytes :=
  chunks_fuel (length data) n data.

(** *** Dictionaries that are iterated over: an association list in
    insertion order, without duplicate keys. *)
Definition dict := list (string * string).

Fixpoint dict_get (k : string) (d : dict) : option string :=
  match d with
  | [] => None
  | (k', v) :: d' => if String.eqb k k' then Some v else dict_get k d'
  end.

(** [d[k] = v] *)
Fixpoint dict_set (k v : string) (d : dict) : dict :=
  match d with
  | [] => [(k, v)]
  | (k', v') :: d' =>
      if String.eqb k k' then (k, v) :: d' else (k', v') :: dict_set k v d'
  end.

End Py.

Export Py.

(** ** The world the program runs in *)

(** The file system is keyed by the path strings the program hands to
    the [os] functions; an entry is a regular file or a directory.
    Distinct path strings name distinct entries (no symbolic links and
    no two spellings of one path). *)
Inductive node : Type :=
| File (content : bytes)
| Dir.

(** Effects, recorded in the order they happen: an HTTP request, a call
    of [_check_sum] (which reads the artifact's file), a chunk written
    to a file, a directory tree removed. *)
Inductive event : Type :=
| HttpGet (url : string) (verify : bool)
| CheckSum (algorithm path : string)
| FileWrite (path : string) (chunk : bytes)
| Rmtree (path : string).

Inductive response : Type :=
| Response (status_code : Z) (content : bytes).

(** Class attributes of [Artifact], shared by all instances. *)
Record ArtifactClass : Type := {
  ssl_verify : bool;
  check_integrity : bool;
  target_dir : string }.

Record World : Type := {
  fs : gmap string node;
  environ : gmap string string;
  network : string → bool → result response;
  Artifact_class : ArtifactClass;
  trace : list event }.

Definition set_fs (f : gmap string node → gmap string node) (w : World) : World :=
  {| fs := f (fs w); environ := environ w; network := network w;
     Artifact_class := Artifact_class w; trace := trace w |}.

Definition log (e : event) (w : World) : World :=
  {| fs := fs w; environ := environ w; network := network w;
     Artifact_class := Artifact_class w; trace := (trace w ++ [e])%list |}.

Definition is_dir (o : option node) : bool :=
  match o with Some Dir => true | _ => false end.

Module os.

(** [os.getenv(key, default)] *)
Definition getenv (key default : string) : M World string :=
  gets (λ w, match environ w !! key with Some v => v | None => default end).

(** [os.path.exists(p)] *)
Definition exists_ (p : string) : M World bool :=
  gets (λ w, bool_decide (is_Some (fs w !! p))).

(** [p] is [d] itself or lies below the directory [d]. *)
Definition under (d p : string) : bool :=
  (String.eqb p d || String.prefix (d +:+ sep) p)%bool.

(** [shutil.rmtree(d)]: removes the directory [d] with everything below
    it; fails on a path that is not a directory. *)
Definition rmtree (d : string) : M World unit :=
  w ← gets id;
  match fs w !! d with
  | Some Dir =>
      modify (log (Rmtree d));;
      modify (set_fs (filter (λ kv, under d kv.1 = false)))
  | _ => raise (OSError d)
  end.

(** [open(p, 'rb').read()] / [open(p, 'r')] followed by reading it all *)
Definition read_file (p : string) : M World bytes :=
  w ← gets id;
  match fs w !! p with
  | Some (File content) => ret content
  | _ => raise (OSError p)
  end.

(** [open(p, 'wb')]: creates or truncates the file; the directory it is
    to live in must exist (the empty directory name is the current
    directory). *)
Definition open_wb (p : string) : M World unit :=
  w ← gets id;
  let parent := dirname p in
  let parent_ok :=
    (String.eqb parent "" || is_dir (fs w !! parent))%bool in
  match fs w !! p with
  | Some Dir => raise (OSError p)
  | _ => if parent_ok then modify (set_fs <[p := File []]>) else raise (OSError p)
  end.

(** [f.write(chunk)] on the file opened at [p] *)
Definition write (p : string) (chunk : bytes) : M World unit :=
  modify (log (FileWrite p chunk));;
  modify (set_fs (alter (λ n, match n with
                              | File content => File (content ++ chunk)%list
                              | Dir => Dir
                              end) p)).

End os.

Module requests.

(** [requests.get(url, verify=verify, stream=True)] *)
Definition get (url : string) (verify : bool) : M World response :=
  modify (log (HttpGet url verify));;
  w ← gets id;
  lift_result (network w url verify).

Definition status_code (res : response) : Z :=
  match res with Response s _ => s end.

(** [res.iter_content(chunk_size=n)] *)
Definition iter_content (chunk_size : nat) (res : response) : list bytes :=
  match res with Response _ content => chunks chunk_size content end.

End requests.

(** ** [dogen/tools.py] *)

Definition SUPPORTED_HASH_ALGORITHMS : list string := ["sha256"; "sha1"; "md5"].

Module Artifact.

(** Instance attributes; [url] is absent until [_generate_url] sets it. *)
Record t : Type := {
  artifact : string;
  name : string;
  sums : dict;
  filename : string;
  url : option string }.

Definition set_sums (f : dict → dict) (self : t) : t :=
  {| artifact := artifact self; name := name self; sums := f (sums self);
     filename := filename self; url := url self |}.

Definition set_url (u : string) (self : t) : t :=
  {| artifact := artifact self; name := name self; sums := sums self;
     filename := filename self; url := Some u |}.

(** Methods run on the instance and the world. *)
Definition Self : Type := t * World.

Definition self_ : M Self t := gets fst.
Definition cls : M Self ArtifactClass := gets (λ s, Artifact_class (snd s)).
Definition in_world {A} (m : M World A) : M Self A :=
  λ s, let '(r, w') := m (snd s) in (r, (fst s, w')).

(** [artifact_dict[key]] *)
Definition getitem {S} (d : gmap string string) (key : string) : M S string :=
  match d !! key with
  | Some v => ret v
  | None => raise (KeyError key)
  end.

Definition __init__ (artifact_dict : gmap string string) : M World t :=
  a ← getitem artifact_dict "artifact";
  n ← getitem artifact_dict "name";
  target ← gets (λ w, target_dir (Artifact_class w));
  let self := {| artifact := a; name := n; sums := [];
                 filename := join target [n]; url := None |} in
  ret (foldl (λ self alg,
                match artifact_dict !! alg with
                | Some v => set_sums (dict_set alg v) self
                | None => self
                end) self SUPPORTED_HASH_ALGORITHMS).

(** The loop of [_generate_url]: the first algorithm found in
    [self.sums] sets [self.url] and leaves the loop. *)
Fixpoint _generate_url_loop (cache : string) (algs : list string) : M Self unit :=
  match algs with
  | [] => ret tt
  | alg :: algs' =>
      self ← self_;
      match dict_get alg (sums self) with
      | Some digest =>
          modify (prod_map (set_url (replace
                                       (replace
                                          (replace cache "#filename#" (name self))
                                          "#algorithm#" alg)
                                       "#hash#" digest)) id)
      | None => _generate_url_loop cache algs'
      end
  end.

Definition _generate_url : M Self unit :=
  cache ← in_world (os.getenv "DOGEN_ARTIFACT_CACHE" "");
  if String.eqb cache "" then
    self ← self_;
    modify (prod_map (set_url (artifact self)) id)
  else _generate_url_loop cache SUPPORTED_HASH_ALGORITHMS.

Section hashing.

(** [hashlib]: [getattr(hashlib, algorithm)] is absent for an unknown
    name; a hash object fed a file chunk by chunk yields the digest of
    the bytes fed so far, as a hex string. *)
Variable hashlib : string → option (bytes → string).

Definition _check_sum (algorithm expected_chksum : string) : M Self unit :=
  self ← self_;
  in_world (modify (log (CheckSum algorithm (filename self))));;
  match hashlib algorithm with
  | None => raise (AttributeError algorithm)
  | Some hexdigest =>
      content ← in_world (os.read_file (filename self));
      let fed := foldl (λ acc chunk, (acc ++ chunk)%list) [] (chunks (N.to_nat 65536) content) in
      let chksum := hexdigest fed in
      if String.eqb (lower chksum) (lower expected_chksum) then ret tt
      else raise (DogenError
                    ("The " +:+ algorithm +:+ " computed for the '" +:+ name self
                     +:+ "' file ('" +:+ chksum +:+ "') doesn't match the '"
                     +:+ expected_chksum +:+ "' value") None)
  end.

Definition verify : M Self bool :=
  c ← cls;
  if negb (check_integrity c) then ret true
  else
    self ← self_;
    for_each (sums self) (λ '(algorithm, chksum), _check_sum algorithm chksum);;
    ret true.

End hashing.

(** [getattr(self, 'url')] *)
Definition get_url : M Self string :=
  self ← self_;
  match url self with
  | Some u => ret u
  | None => raise (AttributeError "url")
  end.

(** [fetch] returns [self]. *)
Definition fetch : M Self t :=
  _generate_url;;
  c ← cls;
  self ← self_;
  let destination := join (target_dir c) [name self] in
  present ← in_world (os.exists_ destination);
  if present : bool then self_
  else
    u ← get_url;
    res ← in_world (requests.get u (ssl_verify c));
    if bool_decide (requests.status_code res ≠ 200%Z) then
      raise (DogenError ("Could not download file from " +:+ u) None)
    else
      in_world (os.open_wb destination);;
      for_each (requests.iter_content 1024 res)
               (λ chunk, in_world (os.write destination chunk));;
      self_.
End Artifact.

Definition if_exists_rmtree (d : string) : M World unit :=
  present ← os.exists_ d;
  if present : bool then os.rmtree d else ret tt.

Definition cleanup (target : string) : M World unit :=
  let dirs_to_clean := [join target ["image"; "modules"];
                        join target ["image"; "repos"];
                        join target ["repo"]] in
  for_each dirs_to_clean if_exists_rmtree.

Section descriptor.

(** The YAML parser and the schema validator are libraries: parsed
    documents are values of [yaml]; [yaml.safe_load], the constructor
    [Core(source_data=..., schema_data=...)] and [core.validate] may
    each raise. [__file__] is the path of the module itself. *)
Variable yaml : Type.
Variable yaml_safe_load : bytes → result yaml.
Variable core : Type.
Variable Core : yaml → yaml → result core.
Variable validate : core → result yaml.
Variable __file__ : string.

Definition load_descriptor (descriptor_path schema_type : string) : M World yaml :=
  let schema_name := schema_type +:+ "_schema.yaml" in
  let schema_path := join (dirname __file__) ["schema"; schema_name] in
  located ← os.exists_ schema_path;
  if negb located then
    raise (DogenError ("Cannot locate schema for " +:+ schema_type +:+ ".") None)
  else
    fh ← os.read_file schema_path;
    schema ← lift_result (yaml_safe_load fh);
    found ← os.exists_ descriptor_path;
    if negb found then
      raise (DogenError "Cannot find provided descriptor file" None)
    else
      fh ← os.read_file descriptor_path;
      descriptor ← lift_result (yaml_safe_load fh);
      c ← lift_result (Core descriptor schema);
      try_except (lift_result (validate c))
                 (λ ex, raise (DogenError "Cannot validate schema" (Some ex))).

End descriptor.

(** ** Placeholder substitution *)

Module Substitution.

Inductive outcome : Type :=
| Resolved (s : string)
| SubstitutionError (placeholder : string).

(** Where the scan stands: in plain text, inside the name of a
    placeholder, or inside its default literal. *)
Inductive mode : Type :=
| Text
| InName (name : string)
| InDefault (name literal : string).

Definition emit (prefix : string) (o : outcome) : outcome :=
  match o with
  | Resolved s => Resolved (prefix +:+ s)
  | SubstitutionError n => SubstitutionError n
  end.

Definition snoc (s : string) (c : ascii) : string := s +:+ String c EmptyString.

(** Modelled from the spec: the substitution engine ([dogen/generator.py])
    is not among the sources. A placeholder is [{{NAME}}] or
    [{{NAME:default-literal}}]; the name ends at the first colon and the
    placeholder at the first [}}]. An override for the name wins, then
    the inline default, and with neither the resolution fails. Text
    outside placeholders, and a placeholder that is never closed, are
    kept as they are. *)
Fixpoint resolve_from (overrides : gmap string string) (m : mode) (s : string)
  : outcome :=
  match s with
  | EmptyString =>
      match m with
      | Text => Resolved ""
      | InName n => Resolved ("{{" +:+ n)
      | InDefault n d => Resolved ("{{" +:+ n +:+ ":" +:+ d)
      end
  | String c s' =>
      match m with
      | Text =>
          match s' with
          | String c' rest =>
              if (Ascii.eqb c "{" && Ascii.eqb c' "{")%bool
              then resolve_from overrides (InName "") rest
              else emit (String c "") (resolve_from overrides Text s')
          | EmptyString => Resolved (String c "")
          end
      | InName n =>
          match s' with
          | String c' rest =>
              if (Ascii.eqb c "}" && Ascii.eqb c' "}")%bool then
                match overrides !! n with
                | Some v => emit v (resolve_from overrides Text rest)
                | None => SubstitutionError n
                end
              else if Ascii.eqb c ":"
              then resolve_from overrides (InDefault n "") s'
              else resolve_from overrides (InName (snoc n c)) s'
          | EmptyString =>
              resolve_from overrides
                (if Ascii.eqb c ":" then InDefault n "" else InName (snoc n c)) s'
          end
      | InDefault n d =>
          match s' with
          | String c' rest =>
              if (Ascii.eqb c "}" && Ascii.eqb c' "}")%bool then
                emit (default d (overrides !! n)) (resolve_from overrides Text rest)
              else resolve_from overrides (InDefault n (snoc d c)) s'
          | EmptyString => resolve_from overrides (InDefault n (snoc d c)) s'
          end
      end
  end.

(** Modelled from the spec: [resolve(stringValue, overrides)] of the
    substitution engine, whose code is not among the sources. *)
Definition resolve (s : string) (overrides : gmap string string) : outcome :=
  resolve_from overrides Text s.

End Substitution.

(** ** Concrete libraries and worlds used to exercise the definitions *)

(** A stand-in for [hashlib]: the three supported algorithms exist, and
    a digest only tells an empty input from a non-empty one. *)
Definition toy_hashlib (algorithm : string) : option (bytes → string) :=
  if bool_decide (algorithm ∈ SUPPORTED_HASH_ALGORITHMS)
  then Some (λ data, match data with [] => "d41d" | _ => "0CC1" end)
  else None.

(** A descriptor entry declaring an md5 and a sha512 checksum, the
    artifact built from it, and worlds around it. *)
Definition demo_entry : gmap string string :=
  {[ "artifact" := "http://host/a.tgz"; "name" := "a.tgz";
     "md5" := "D41D"; "sha512" := "ff" ]}.

Definition demo_artifact : Artifact.t :=
  {| Artifact.artifact := "http://host/a.tgz"; Artifact.name := "a.tgz";
     Artifact.sums := [("md5", "D41D")]; Artifact.filename := "out/a.tgz";
     Artifact.url := None |}.

(** An entry whose only checksum is of an unsupported kind, and the
    artifact built from it. *)
Definition bare_entry : gmap string string :=
  {[ "artifact" := "http://host/b.tgz"; "name" := "b.tgz"; "sha512" := "ff" ]}.

Definition bare_artifact : Artifact.t :=
  {| Artifact.artifact := "http://host/b.tgz"; Artifact.name := "b.tgz";
     Artifact.sums := []; Artifact.filename := "out/b.tgz";
     Artifact.url := None |}.

Definition demo_world (files : gmap string node) (env : gmap string string)
    (status : Z) (body : bytes) (integrity : bool) : World :=
  {| fs := files; environ := env;
     network := λ _ _, Ok (Response status body);
     Artifact_class := {| ssl_verify := true; check_integrity := integrity;
                          target_dir := "out" |};
     trace := [] |}.

Definition demo_cache : gmap string string :=
  {[ "DOGEN_ARTIFACT_CACHE" := "http://cache/#algorithm#/#hash#/#filename#" ]}.

(** A directory [out] in which [a.tgz] was stored with one byte in it. *)
Definition one_byte : bytes := [Byte.x01].

Definition stored_files : gmap string node :=
  {[ "out" := Dir; "out/a.tgz" := File one_byte ]}.

(** A tree to clean: the three directories with content, and files
    that are not theirs. *)
Definition dirty_files : gmap string node :=
  {[ "out" := Dir; "out/Dockerfile" := File one_byte;
     "out/image" := Dir; "out/image/modules" := Dir;
     "out/image/modules/jdk" := Dir; "out/image/modules/jdk/module.yaml" := File [];
     "out/image/modulesX" := File []; "out/image/repos" := Dir;
     "out/repo" := Dir; "out/repo/a.repo" := File []; "out/repository" := Dir ]}.

(** Stand-ins for the YAML parser and the schema validator: a document
    is its bytes, and a descriptor is valid when it is not empty. *)
Definition toy_safe_load (data : bytes) : result bytes := Ok data.

Definition toy_Core (source schema : bytes) : result (bytes * bytes) :=
  Ok (source, schema).

Definition toy_validate (c : bytes * bytes) : result bytes :=
  match c.1 with
  | [] => Raise (ValidatorError "Schema validation errors")
  | _ => Ok c.1
  end.

Definition toy_module : string := "/pkg/dogen/tools.py".

Definition schema_files : gmap string node :=
  {[ "/pkg/dogen/schema/image_schema.yaml" := File one_byte;
     "image.yaml" := File [] ]}.

(** ** Notions the specification speaks in *)

(** The checksum the cache URL is built from: the first of sha256, sha1
    and md5 that the artifact declares. *)
Definition preferred_sum (sums : dict) : option (string * string) :=
  match dict_get "sha256" sums with
  | Some digest => Some ("sha256", digest)
  | None =>
      match dict_get "sha1" sums with
      | Some digest => Some ("sha1", digest)
      | None =>
          match dict_get "md5" sums with
          | Some digest => Some ("md5", digest)
          | None => None
          end
      end
  end.

(** The first algorithm of [algs] that [sums] declares, with its digest. *)
Fixpoint first_declared (algs : list string) (sums : dict) : option (string * string) :=
  match algs with
  | [] => None
  | alg :: algs' =>
      match dict_get alg sums with
      | Some digest => Some (alg, digest)
      | None => first_declared algs' sums
      end
  end.

(** The cache pattern with its three placeholders filled in. *)
Definition cache_url (pattern filename algorithm digest : string) : string :=
  replace (replace (replace pattern "#filename#" filename)
             "#algorithm#" algorithm) "#hash#" digest.

(** Where [fetch] stores the artifact. *)
Definition destination (a : Artifact.t) (w : World) : string :=
  join (target_dir (Artifact_class w)) [Artifact.name a].

(** The URL [fetch] downloads from: [self.url] once [_generate_url] ran. *)
Definition fetch_url (a : Artifact.t) (w : World) : option string :=
  Artifact.url (fst (snd (Artifact._generate_url (a, w)))).

(** A declared checksum agrees with the content of the file, hex digits
    compared without regard to case. *)
Definition sum_matches (hashlib : string → option (bytes → string))
    (content : bytes) (declared : string * string) : bool :=
  match hashlib declared.1 with
  | Some hexdigest => String.eqb (lower (hexdigest content)) (lower declared.2)
  | None => false
  end.

Definition is_check_sum (e : event) : bool :=
  match e with CheckSum _ _ => true | _ => false end.

(** The world with further events recorded. *)
Definition logs (evs : list event) (w : World) : World :=
  {| fs := fs w; environ := environ w; network := network w;
     Artifact_class := Artifact_class w; trace := (trace w ++ evs)%list |}.

(** One [_check_sum] call per listed checksum, on the artifact's file. *)
Definition checked (a : Artifact.t) (sums : dict) : list event :=
  map (λ kv, CheckSum kv.1 (Artifact.filename a)) sums.

(** The body of the loop of [verify]. *)
Definition check_each (hashlib : string → option (bytes → string))
  : string * string → M Artifact.Self unit :=
  λ '(algorithm, chksum), Artifact._check_sum hashlib algorithm chksum.

(** The directory a file is created in exists. *)
Definition parent_exists (w : World) (p : string) : bool :=
  (String.eqb (dirname p) "" || is_dir (fs w !! dirname p))%bool.

(** The text of the error [_check_sum] raises. *)
Definition mismatch_message (a : Artifact.t) (content : bytes)
    (algorithm expected : string) (hexdigest : bytes → string) : string :=
  "The " +:+ algorithm +:+ " computed for the '" +:+ Artifact.name a
  +:+ "' file ('" +:+ hexdigest content +:+ "') doesn't match the '"
  +:+ expected +:+ "' value".

(** What a [_check_sum] call that does not find its digest raises. *)
Definition check_sum_error (hashlib : string → option (bytes → string))
    (a : Artifact.t) (content : bytes) (kv : string * string) : exn :=
  match hashlib kv.1 with
  | Some hexdigest => DogenError (mismatch_message a content kv.1 kv.2 hexdigest) None
  | None => AttributeError kv.1
  end.

(** The world with the regular file [p] holding [content]. *)
Definition with_file (p : string) (content : bytes) (w : World) : World :=
  set_fs <[p := File content]> w.

(** Where [load_descriptor] looks for the schema of a descriptor type. *)
Definition schema_path_of (module_file schema_type : string) : string :=
  join (dirname module_file) ["schema"; schema_type +:+ "_schema.yaml"].

(** The three directories [cleanup] empties. *)
Definition dirty_dirs (target : string) : list string :=
  [join target ["image"; "modules"]; join target ["image"; "repos"];
   join target ["repo"]].

Definition absent_or_dir (o : option node) : Prop := o = None ∨ o = Some Dir.

(** [target] as a prefix of the paths below it: [os.path.join] puts a
    slash after a non-empty [target] that does not end in one. *)
Definition slashed (target : string) : string :=
  if (String.eqb target "" || endswith target sep)%bool then target
  else target +:+ sep.

(** Removing the directory [d] if it is there. *)
Definition sweep (d : string) (w : World) : World :=
  if is_dir (fs w !! d)
  then set_fs (filter (λ kv, os.under d kv.1 = false)) (log (Rmtree d) w)
  else w.


Fixpoint contains (c : ascii) (s : string) : bool :=
  match s with
  | EmptyString => false
  | String c' s' => (Ascii.eqb c' c || contains c s')%bool
  end.

(** A 2xx status. *)
Definition is_success (status : Z) : bool := ((200 <=? status) && (status <? 300))%Z.

(** ** [prepare_external_repositories] and the library calls it makes *)

Module posixpath.

(** [os.path.basename(p)]: [p[p.rfind('/') + 1:]] *)
Fixpoint basename (p : string) : string :=
  match p with
  | EmptyString => EmptyString
  | String c p' =>
      if has_sep p' then basename p'
      else if Ascii.eqb c "/" then p' else p
  end.

Fixpoint has_dot (s : string) : bool :=
  match s with
  | EmptyString => false
  | String c s' => (Ascii.eqb c "." || has_dot s')%bool
  end.

(** [p[:p.rfind('.')]], and all of [p] when it has no dot *)
Fixpoint before_last_dot (p : string) : string :=
  match p with
  | EmptyString => EmptyString
  | String c p' =>
      if has_dot p' then String c (before_last_dot p')
      else if Ascii.eqb c "." then EmptyString else p
  end.

Fixpoint all_dots (s : string) : bool :=
  match s with
  | EmptyString => true
  | String c s' => (Ascii.eqb c "." && all_dots s')%bool
  end.

(** [os.path.splitext(p)[0]] for a [p] without a slash, which is what a
    base name is: the extension starts at the last dot, unless nothing
    but dots comes before it. *)
Definition splitext_root (p : string) : string :=
  let root := before_last_dot p in
  if all_dots root then p else root.

End posixpath.

Module glob.

(** The characters that make a path a pattern. *)
Definition has_magic (s : string) : bool :=
  (contains "*" s || contains "?" s || contains "[" s)%bool.

(** [s[len(pre):]] when [s] starts with [pre] *)
Fixpoint strip_prefix (pre s : string) : option string :=
  match pre with
  | EmptyString => Some s
  | String c pre' =>
      match s with
      | String c' s' => if Ascii.eqb c c' then strip_prefix pre' s' else None
      | EmptyString => None
      end
  end.

(** The names of the entries of the directory [dir] (the empty name is
    the current directory), as [os.listdir] gives them; the order, which
    Python leaves open, is that of the keys of the file system. *)
Definition names_in (dir : string) (w : World) : list string :=
  omap (λ kv : string * node,
          match strip_prefix (slashed dir) kv.1 with
          | Some name =>
              if (negb (String.eqb name "") && negb (has_sep name))%bool
              then Some name else None
          | None => None
          end) (map_to_list (fs w)).

(** A name matches ["*" + suffix] when it ends in [suffix]; a name that
    starts with a dot is hidden from such a pattern. *)
Definition star_match (suffix name : string) : bool :=
  (endswith name suffix && negb (startswith name "."))%bool.

(** [glob.glob(pathname)] for a [pathname] whose last component is
    ["*" + suffix] and which has no wildcard before it: the matching
    entries of the directory [os.path.dirname(pathname)], each joined to
    that directory. A directory that cannot be listed has no matches. *)
Definition star (pathname suffix : string) : M World (list string) :=
  gets (λ w, let dir := dirname pathname in
             if (String.eqb dir "" || is_dir (fs w !! dir))%bool
             then map (λ name, join dir [name])
                    (List.filter (star_match suffix) (names_in dir w))
             else []).

End glob.

(** [os.mkdir(p)] *)
Definition os_mkdir (p : string) : M World unit :=
  w ← gets id;
  match fs w !! p with
  | Some _ => raise (OSError p)
  | None =>
      if (negb (String.eqb p "")
          && (String.eqb (dirname p) "" || is_dir (fs w !! dirname p)))%bool
      then modify (set_fs <[p := Dir]>)
      else raise (OSError p)
  end.

(** [os.makedirs(name)] (without [exist_ok]): the missing ancestors are
    made first. Its [except FileExistsError] needs somebody else to make
    the ancestor in between and has no counterpart here. Each recursive
    call is on a shorter path. *)
Fixpoint os_makedirs_fuel (fuel : nat) (name : string) : M World unit :=
  match fuel with
  | O => os_mkdir name
  | S fuel' =>
      let head0 := dirname name in
      let tail0 := posixpath.basename name in
      let head := if String.eqb tail0 "" then dirname head0 else head0 in
      let tail := if String.eqb tail0 "" then posixpath.basename head0 else tail0 in
      present ← os.exists_ head;
      if (negb (String.eqb head "") && negb (String.eqb tail "") && negb present)%bool
      then
        os_makedirs_fuel fuel' head;;
        if String.eqb tail "." then ret tt else os_mkdir name
      else os_mkdir name
  end.

Definition os_makedirs (name : string) : M World unit :=
  os_makedirs_fuel (String.length name) name.

Module shutil.

(** [shutil.copy2(src, dst)]: into the directory [dst] under the base
    name of [src], else onto [dst]; copying a file onto itself is an
    error. The metadata it also copies is not part of the world. *)
Definition copy2 (src dst : string) : M World unit :=
  w ← gets id;
  let dst := if is_dir (fs w !! dst)
             then join dst [posixpath.basename src] else dst in
  if String.eqb src dst then raise (OSError src)
  else
    content ← os.read_file src;
    os.open_wb dst;;
    modify (set_fs <[dst := File content]>).

End shutil.

(** The loop of [prepare_external_repositories]. *)
Fixpoint copy_repo_files (target_dir : string) (repo_files added_repos : list string)
  : M World (list string) :=
  match repo_files with
  | [] => ret added_repos
  | f :: repo_files' =>
      shutil.copy2 f target_dir;;
      copy_repo_files target_dir repo_files'
        (added_repos ++ [posixpath.splitext_root (posixpath.basename f)])%list
  end.

Definition prepare_external_repositories (repo_files_dir image_dir : string)
  : M World (list string) :=
  present ← os.exists_ repo_files_dir;
  if negb present then
    raise (DogenError ("Directory '" +:+ repo_files_dir
                       +:+ "' with additional repository definitions doesn't exist!")
             None)
  else
    repo_files ← glob.star (join repo_files_dir ["*.repo"]) ".repo";
    let target_dir := join image_dir ["repos"] in
    os_makedirs target_dir;;
    copy_repo_files target_dir repo_files [].

(** A directory of repository definitions beside an image directory. *)
Definition repo_files : gmap string node :=
  {[ "repos" := Dir; "repos/epel.repo" := File one_byte;
     "repos/jboss.repo" := File []; "repos/README" := File [];
     "repos/.hidden.repo" := File []; "repos/old" := Dir;
     "repos/old/gone.repo" := File [];
     "out" := Dir; "out/image" := Dir ]}.

(** ** Further notions *)

(** A call returned normally. *)
Definition is_ok {A} (r : result A) : bool :=
  match r with Ok _ => true | Raise _ => false end.

(** The checksums with every declared digest in lower case. *)
Definition lower_digests (sums : dict) : dict :=
  map (λ kv, (kv.1, lower kv.2)) sums.

(** The three directories hold no regular file where a directory is due. *)
Definition sweepable (target : string) (w : World) : Prop :=
  Forall (λ d, absent_or_dir (fs w !! d)) (dirty_dirs target).

(** A world without a reachable server. *)
Definition offline_world (files : gmap string node) : World :=
  {| fs := files; environ := ∅;
     network := λ url _, Raise (RequestException url);
     Artifact_class := {| ssl_verify := true; check_integrity := true;
                          target_dir := "out" |};
     trace := [] |}.

(** A parser that rejects documents starting with a zero byte and a
    validator that cannot be built on an empty document. *)
Definition picky_safe_load (data : bytes) : result bytes :=
  match data with
  | Byte.x00 :: _ => Raise (YAMLError "not a document")
  | _ => Ok data
  end.

Definition picky_Core (source schema : bytes) : result (bytes * bytes) :=
  match source with
  | [] => Raise (ValidatorError "No source file/data was loaded")
  | _ => Ok (source, schema)
  end.

Definition picky_files : gmap string node :=
  {[ "/pkg/dogen/schema/image_schema.yaml" := File one_byte;
     "/pkg/dogen/schema/module_schema.yaml" := File [Byte.x00];
     "bad.yaml" := File [Byte.x00];
     "empty.yaml" := File [] ]}.

(** A target in which a regular file sits where the [repo] directory
    is due. *)
Definition blocked_files : gmap string node :=
  {[ "out" := Dir; "out/image" := Dir; "out/image/modules" := Dir;
     "out/image/modules/m.yaml" := File []; "out/repo" := File one_byte ]}.

(** A directory prefix is empty or ends in a slash; a name has no slash. *)
Definition dir_prefix (pre : string) : Prop := pre = "" ∨ endswith pre sep = true.

(** A directory name in the form the file system is keyed by: not
    empty, no slash at the end. *)
Definition plain_dir (d : string) : Prop := d ≠ "" ∧ endswith d sep = false.

(** The repository definitions of a directory: the names that
    [glob] finds for ["*.repo"]. *)
Definition repo_names (repo_files_dir : string) (w : World) : list string :=
  List.filter (glob.star_match ".repo") (glob.names_in repo_files_dir w).

(** Two worlds that differ in their files at most. *)
Definition same_but_files (w w' : World) : Prop :=
  environ w' = environ w ∧ network w' = network w
  ∧ Artifact_class w' = Artifact_class w ∧ trace w' = trace w.


(** * Properties *)

(** ** Library functions *)

(** [step] runs the monadic plumbing of a goal and nothing else; [run]
    also computes. *)
Ltac step :=
  cbv beta iota zeta delta
    [mbind mret M_bind M_ret bind ret raise gets modify lift_result try_except
     Artifact.in_world Artifact.self_ Artifact.cls Artifact.get_url
     fst snd id prod_map].

Ltac run := step; simpl.

Lemma chunks_fuel_concat (n : nat) (data : bytes) (fuel : nat) :
  (0 < n)%nat → (length data ≤ fuel)%nat → concat (chunks_fuel fuel n data) = data.
Proof.
  intros Hn. revert data.
  induction fuel as [|fuel IH]; intros data Hlen.
  - destruct data; [reflexivity | simpl in Hlen; lia].
  - destruct data as [|b data']; [reflexivity|].
    change (concat (take n (b :: data') :: chunks_fuel fuel n (drop n (b :: data')))
            = b :: data').
    rewrite concat_cons, IH.
    + apply take_drop.
    + rewrite length_drop. simpl in *. lia.
Qed.

(** Cutting a byte sequence in chunks and gluing them back loses nothing. *)
Lemma chunks_concat (n : nat) (data : bytes) :
  (0 < n)%nat → concat (chunks n data) = data.
Proof. intros Hn. apply chunks_fuel_concat; [assumption | reflexivity]. Qed.

Lemma foldl_app_concat (acc : bytes) (cs : list bytes) :
  foldl (λ acc chunk, (acc ++ chunk)%list) acc cs = (acc ++ concat cs)%list.
Proof.
  revert acc. induction cs as [|c cs IH]; intros acc; simpl.
  - by rewrite app_nil_r.
  - by rewrite IH, app_assoc.
Qed.

(** A hash object fed the chunks of a file has seen the whole file. *)
Lemma fed_whole_file (n : nat) (content : bytes) :
  (0 < n)%nat → foldl (λ acc chunk, (acc ++ chunk)%list) [] (chunks n content) = content.
Proof. intros Hn. by rewrite foldl_app_concat, chunks_concat. Qed.

(** ** [Artifact._generate_url] *)

Lemma preferred_sum_first_declared (sums : dict) :
  preferred_sum sums = first_declared SUPPORTED_HASH_ALGORITHMS sums.
Proof.
  unfold preferred_sum. simpl.
  repeat (match goal with |- context [dict_get ?k sums] => destruct (dict_get k sums) end;
          try reflexivity).
Qed.

Lemma generate_url_loop_run (cache : string) (algs : list string)
    (a : Artifact.t) (w : World) :
  Artifact._generate_url_loop cache algs (a, w)
  = (Ok tt,
     (match first_declared algs (Artifact.sums a) with
      | Some (alg, digest) =>
          Artifact.set_url (cache_url cache (Artifact.name a) alg digest) a
      | None => a
      end, w)).
Proof.
  induction algs as [|alg algs IH]; simpl; [reflexivity|].
  run. destruct (dict_get alg (Artifact.sums a)); [reflexivity | apply IH].
Qed.

(** What [_generate_url] does, in one equation: it only ever touches
    [self.url]. *)
Lemma generate_url_run (a : Artifact.t) (w : World) :
  Artifact._generate_url (a, w)
  = (Ok tt,
     (match environ w !! "DOGEN_ARTIFACT_CACHE" with
      | None | Some "" => Artifact.set_url (Artifact.artifact a) a
      | Some cache =>
          match preferred_sum (Artifact.sums a) with
          | Some (alg, digest) =>
              Artifact.set_url (cache_url cache (Artifact.name a) alg digest) a
          | None => a
          end
      end, w)).
Proof.
  unfold Artifact._generate_url, os.getenv. step.
  destruct (environ w !! "DOGEN_ARTIFACT_CACHE") as [cache|]; [|reflexivity].
  destruct cache as [|c cache]; [reflexivity|].
  cbn [String.eqb].
  rewrite generate_url_loop_run. reflexivity.
Qed.

Lemma generate_url_keeps (a : Artifact.t) (w : World) :
  let a' := fst (snd (Artifact._generate_url (a, w))) in
  Artifact.name a' = Artifact.name a ∧ Artifact.sums a' = Artifact.sums a
  ∧ Artifact.artifact a' = Artifact.artifact a
  ∧ Artifact.filename a' = Artifact.filename a.
Proof.
  rewrite generate_url_run. simpl.
  destruct (environ w !! "DOGEN_ARTIFACT_CACHE") as [[|c cache]|]; simpl; auto.
  destruct (preferred_sum (Artifact.sums a)) as [[alg digest]|]; simpl; auto.
Qed.

(** ** [Artifact.__init__] *)

(** The checksums an artifact is built with: those of the descriptor
    entry whose key is a supported algorithm, in the order of
    [SUPPORTED_HASH_ALGORITHMS]. *)
Lemma init_run (d : gmap string string) (w : World) :
  Artifact.__init__ d w
  = match d !! "artifact", d !! "name" with
    | Some a, Some n =>
        (Ok {| Artifact.artifact := a; Artifact.name := n;
               Artifact.sums :=
                 omap (λ alg, pair alg <$> d !! alg) SUPPORTED_HASH_ALGORITHMS;
               Artifact.filename := join (target_dir (Artifact_class w)) [n];
               Artifact.url := None |}, w)
    | None, _ => (Raise (KeyError "artifact"), w)
    | Some _, None => (Raise (KeyError "name"), w)
    end.
Proof.
  unfold Artifact.__init__, Artifact.getitem. step.
  destruct (d !! "artifact") as [a|]; [|reflexivity].
  destruct (d !! "name") as [n|]; [|reflexivity].
  unfold SUPPORTED_HASH_ALGORITHMS. simpl.
  destruct (d !! "sha256"), (d !! "sha1"), (d !! "md5"); reflexivity.
Qed.

Lemma init_inv (d : gmap string string) (w w' : World) (a : Artifact.t) :
  Artifact.__init__ d w = (Ok a, w') →
  w' = w
  ∧ d !! "artifact" = Some (Artifact.artifact a)
  ∧ d !! "name" = Some (Artifact.name a)
  ∧ Artifact.sums a = omap (λ alg, pair alg <$> d !! alg) SUPPORTED_HASH_ALGORITHMS
  ∧ Artifact.url a = None.
Proof.
  rewrite init_run.
  destruct (d !! "artifact"), (d !! "name"); intros [= <- <-]; auto.
Qed.

Lemma init_preferred_sum (d : gmap string string) (w w' : World) (a : Artifact.t) :
  Artifact.__init__ d w = (Ok a, w') →
  Artifact.sums a ≠ [] → is_Some (preferred_sum (Artifact.sums a)).
Proof.
  intros (_ & _ & _ & -> & _)%init_inv.
  unfold SUPPORTED_HASH_ALGORITHMS. simpl.
  destruct (d !! "sha256"), (d !! "sha1"), (d !! "md5"); simpl;
    intros H; try (eexists; reflexivity); by destruct H.
Qed.

Example init_examples :
  Artifact.__init__ demo_entry (demo_world ∅ ∅ 200 [] true)
  = (Ok demo_artifact, demo_world ∅ ∅ 200 [] true)
  ∧ Artifact.__init__ bare_entry (demo_world ∅ ∅ 200 [] true)
    = (Ok bare_artifact, demo_world ∅ ∅ 200 [] true)
  ∧ Artifact.__init__ {[ "name" := "c.tgz" ]} (demo_world ∅ ∅ 200 [] true)
    = (Raise (KeyError "artifact"), demo_world ∅ ∅ 200 [] true).
Proof. repeat split. Qed.

(** ** [Artifact.fetch] *)

Lemma fetch_after_generate_url (a : Artifact.t) (w : World) :
  Artifact.fetch (a, w)
  = (let a' := fst (snd (Artifact._generate_url (a, w))) in
     if bool_decide (is_Some (fs w !! destination a w)) then (Ok a', (a', w))
     else match Artifact.url a' with
          | None => (Raise (AttributeError "url"), (a', w))
          | Some u =>
              let ssl := ssl_verify (Artifact_class w) in
              let w1 := log (HttpGet u ssl) w in
              match network w u ssl with
              | Raise e => (Raise e, (a', w1))
              | Ok res =>
                  if bool_decide (requests.status_code res ≠ 200%Z) then
                    (Raise (DogenError ("Could not download file from " +:+ u) None),
                     (a', w1))
                  else
                    ((Artifact.in_world (os.open_wb (destination a w));;
                      for_each (requests.iter_content 1024 res)
                        (λ chunk, Artifact.in_world (os.write (destination a w) chunk));;
                      Artifact.self_) (a', w1))
              end
          end).
Proof.
  pose proof (generate_url_keeps a w) as (Hname & _).
  unfold Artifact.fetch. step. rewrite generate_url_run in *. step.
  unfold destination, os.exists_, requests.get. step.
  cbn [fst snd] in Hname. rewrite Hname.
  destruct (bool_decide _); [reflexivity|].
  match goal with |- context [Artifact.url ?x] => destruct (Artifact.url x) end;
    [|reflexivity].
  cbn [network log Artifact_class].
  destruct (network w _ _) as [res|e]; [|reflexivity].
  destruct (bool_decide _); reflexivity.
Qed.

(** C2. When the destination file of an artifact already exists, [fetch]
    returns at once: the world it leaves is the world it found, so no
    request was sent, nothing was written and no checksum was computed;
    the artifact still names the same file and checksums. *)
Theorem fetch_existing_destination (a : Artifact.t) (w : World) :
  is_Some (fs w !! destination a w) →
  ∃ a', Artifact.fetch (a, w) = (Ok a', (a', w))
        ∧ Artifact.name a' = Artifact.name a
        ∧ Artifact.sums a' = Artifact.sums a.
Proof.
  intros Hpresent. rewrite fetch_after_generate_url. cbv zeta.
  rewrite bool_decide_eq_true_2 by assumption.
  pose proof (generate_url_keeps a w) as (Hname & Hsums & _).
  eexists. split; [reflexivity | split; assumption].
Qed.

Lemma fetch_existing_destination_witness :
  ∃ a', Artifact.fetch
          (demo_artifact,
           demo_world {[ "out" := Dir; "out/a.tgz" := File [] ]} ∅ 200 [] true)
        = (Ok a', (a', demo_world {[ "out" := Dir; "out/a.tgz" := File [] ]} ∅ 200 [] true))
        ∧ Artifact.name a' = Artifact.name demo_artifact
        ∧ Artifact.sums a' = Artifact.sums demo_artifact.
Proof.
  apply fetch_existing_destination. vm_compute. eexists. reflexivity.
Defined.

(** A response whose status is not 200 makes a fresh download fail with
    the error naming the URL, after the request and before any write. *)
Lemma fetch_status_not_200 (a : Artifact.t) (w : World) (u : string)
    (status : Z) (body : bytes) :
  fs w !! destination a w = None →
  fetch_url a w = Some u →
  network w u (ssl_verify (Artifact_class w)) = Ok (Response status body) →
  status ≠ 200%Z →
  ∃ a', Artifact.fetch (a, w)
        = (Raise (DogenError ("Could not download file from " +:+ u) None),
           (a', log (HttpGet u (ssl_verify (Artifact_class w))) w)).
Proof.
  intros Habsent Hurl Hnet Hstatus. rewrite fetch_after_generate_url. cbv zeta.
  rewrite bool_decide_eq_false_2 by (rewrite Habsent; by intros [? ?]).
  unfold fetch_url in Hurl. rewrite Hurl, Hnet.
  rewrite bool_decide_eq_true_2 by assumption.
  eexists. reflexivity.
Qed.

(** C7. On a fresh download (destination absent, URL resolved to [u]), a
    response with a non-success status makes [fetch] raise
    [DogenError "Could not download file from <u>"]; the file system is
    left as it was, the destination still absent, and the only effect is
    the one request. *)
Theorem fetch_non_success_status (a : Artifact.t) (w : World) (u : string)
    (status : Z) (body : bytes) :
  fs w !! destination a w = None →
  fetch_url a w = Some u →
  network w u (ssl_verify (Artifact_class w)) = Ok (Response status body) →
  is_success status = false →
  ∃ a' w', Artifact.fetch (a, w)
           = (Raise (DogenError ("Could not download file from " +:+ u) None),
              (a', w'))
           ∧ fs w' = fs w
           ∧ fs w' !! destination a w = None
           ∧ trace w' = (trace w ++ [HttpGet u (ssl_verify (Artifact_class w))])%list.
Proof.
  intros Habsent Hurl Hnet Hstatus.
  destruct (fetch_status_not_200 a w u status body) as [a' Hfetch]; try assumption.
  { intros ->. discriminate Hstatus. }
  exists a', (log (HttpGet u (ssl_verify (Artifact_class w))) w).
  auto.
Qed.

Lemma fetch_non_success_status_witness :
  ∃ a' w', Artifact.fetch (demo_artifact, demo_world {[ "out" := Dir ]} ∅ 404 [] true)
           = (Raise (DogenError ("Could not download file from " +:+ "http://host/a.tgz") None),
              (a', w'))
           ∧ fs w' = {[ "out" := Dir ]}
           ∧ fs w' !! "out/a.tgz" = None
           ∧ trace w' = [HttpGet "http://host/a.tgz" true].
Proof.
  exact (fetch_non_success_status demo_artifact
           (demo_world {[ "out" := Dir ]} ∅ 404 [] true) "http://host/a.tgz" 404 []
           eq_refl eq_refl eq_refl eq_refl).
Defined.

(** C9. With a non-empty cache pattern in the environment and no
    checksum declared for any supported algorithm, [_generate_url]
    returns normally and leaves the artifact as it was: no URL is
    assigned. A freshly built artifact has no [url] yet, so fetching it
    while its destination is absent raises [AttributeError] for [url],
    the world untouched (no request sent). *)
Theorem cache_without_supported_sum (a : Artifact.t) (w : World) (cache : string) :
  environ w !! "DOGEN_ARTIFACT_CACHE" = Some cache →
  cache ≠ "" →
  (∀ alg, alg ∈ SUPPORTED_HASH_ALGORITHMS → dict_get alg (Artifact.sums a) = None) →
  Artifact._generate_url (a, w) = (Ok tt, (a, w))
  ∧ (Artifact.url a = None →
     fs w !! destination a w = None →
     Artifact.fetch (a, w) = (Raise (AttributeError "url"), (a, w))).
Proof.
  intros Hcache Hnonempty Hnone.
  assert (Hpref : preferred_sum (Artifact.sums a) = None).
  { unfold preferred_sum.
    rewrite !Hnone by (unfold SUPPORTED_HASH_ALGORITHMS; set_solver).
    reflexivity. }
  assert (Hgen : Artifact._generate_url (a, w) = (Ok tt, (a, w))).
  { rewrite generate_url_run, Hcache, Hpref.
    destruct cache; [by destruct Hnonempty | reflexivity]. }
  split; [assumption|].
  intros Hurl Habsent. rewrite fetch_after_generate_url, Hgen. cbn [fst snd].
  rewrite bool_decide_eq_false_2 by (rewrite Habsent; by intros [? ?]).
  rewrite Hurl. reflexivity.
Qed.

Lemma cache_without_supported_sum_witness :
  let w := demo_world {[ "out" := Dir ]} demo_cache 200 [] true in
  Artifact._generate_url (bare_artifact, w) = (Ok tt, (bare_artifact, w))
  ∧ Artifact.fetch (bare_artifact, w) = (Raise (AttributeError "url"), (bare_artifact, w)).
Proof.
  intros w.
  destruct (cache_without_supported_sum bare_artifact w
              "http://cache/#algorithm#/#hash#/#filename#" eq_refl)
    as [Hgen Hfetch]; [discriminate | by intros alg _ |].
  split; [exact Hgen | exact (Hfetch eq_refl eq_refl)].
Defined.

Example cache_url_example :
  fetch_url demo_artifact (demo_world ∅ demo_cache 200 [] true)
  = Some "http://cache/md5/D41D/a.tgz".
Proof. reflexivity. Qed.

(** C4. For an artifact built from a descriptor entry: with a non-empty
    cache pattern in the environment and at least one checksum recorded,
    the URL is the pattern with [#filename#] replaced by the name,
    [#algorithm#] by the first of sha256, sha1, md5 that is declared and
    [#hash#] by its digest; with no cache pattern (unset or empty), it is
    the declared source URL. *)
Theorem cache_url_resolution (d : gmap string string) (w0 w0' w : World)
    (a : Artifact.t) :
  Artifact.__init__ d w0 = (Ok a, w0') →
  (∀ cache, environ w !! "DOGEN_ARTIFACT_CACHE" = Some cache → cache ≠ "" →
            Artifact.sums a ≠ [] →
            ∃ alg digest,
              preferred_sum (Artifact.sums a) = Some (alg, digest)
              ∧ fetch_url a w = Some (cache_url cache (Artifact.name a) alg digest))
  ∧ (environ w !! "DOGEN_ARTIFACT_CACHE" = None
     ∨ environ w !! "DOGEN_ARTIFACT_CACHE" = Some "" →
     fetch_url a w = Some (Artifact.artifact a)).
Proof.
  intros Hinit. unfold fetch_url. rewrite generate_url_run. cbn [fst snd]. split.
  - intros cache Hcache Hnonempty Hsums.
    destruct (init_preferred_sum d w0 w0' a Hinit Hsums) as [[alg digest] Hpref].
    exists alg, digest. rewrite Hcache, Hpref.
    destruct cache; [by destruct Hnonempty | auto].
  - intros [-> | ->]; reflexivity.
Qed.

Lemma cache_url_resolution_witness :
  fetch_url demo_artifact (demo_world ∅ demo_cache 200 [] true)
  = Some (cache_url "http://cache/#algorithm#/#hash#/#filename#" "a.tgz" "md5" "D41D")
  ∧ fetch_url demo_artifact (demo_world ∅ ∅ 200 [] true) = Some "http://host/a.tgz".
Proof.
  split.
  - destruct (cache_url_resolution demo_entry
                (demo_world ∅ ∅ 200 [] true) (demo_world ∅ ∅ 200 [] true)
                (demo_world ∅ demo_cache 200 [] true) demo_artifact eq_refl)
      as [Hcache _].
    destruct (Hcache "http://cache/#algorithm#/#hash#/#filename#" eq_refl)
      as (alg & digest & Hpref & Hurl); [discriminate | discriminate |].
    vm_compute in Hpref. injection Hpref as <- <-. exact Hurl.
  - destruct (cache_url_resolution demo_entry
                (demo_world ∅ ∅ 200 [] true) (demo_world ∅ ∅ 200 [] true)
                (demo_world ∅ ∅ 200 [] true) demo_artifact eq_refl)
      as [_ Hplain].
    apply Hplain. left. reflexivity.
Defined.

(** ** [Artifact.verify] *)

Lemma logs_nil (w : World) : logs [] w = w.
Proof. destruct w. unfold logs. simpl. by rewrite app_nil_r. Qed.

Lemma logs_logs (evs1 evs2 : list event) (w : World) :
  logs evs2 (logs evs1 w) = logs (evs1 ++ evs2) w.
Proof. unfold logs. simpl. by rewrite app_assoc. Qed.

Lemma read_size_positive : (0 < N.to_nat 65536)%nat.
Proof. lia. Qed.

Section verification.

Variable hashlib : string → option (bytes → string).

Lemma check_sum_run (algorithm expected : string) (a : Artifact.t) (w : World) :
  Artifact._check_sum hashlib algorithm expected (a, w)
  = (match hashlib algorithm with
     | None => Raise (AttributeError algorithm)
     | Some hexdigest =>
         match fs w !! Artifact.filename a with
         | Some (File content) =>
             if String.eqb (lower (hexdigest content)) (lower expected) then Ok tt
             else Raise (DogenError
                           (mismatch_message a content algorithm expected hexdigest)
                           None)
         | _ => Raise (OSError (Artifact.filename a))
         end
     end, (a, logs [CheckSum algorithm (Artifact.filename a)] w)).
Proof.
  unfold Artifact._check_sum, os.read_file. step.
  destruct (hashlib algorithm) as [hexdigest|]; [|reflexivity].
  cbn [fs log].
  destruct (fs w !! Artifact.filename a) as [[content|]|]; try reflexivity.
  rewrite (fed_whole_file _ _ read_size_positive).
  destruct (String.eqb _ _); reflexivity.
Qed.

Lemma check_sum_matching (a : Artifact.t) (w : World) (content : bytes)
    (kv : string * string) :
  fs w !! Artifact.filename a = Some (File content) →
  sum_matches hashlib content kv = true →
  Artifact._check_sum hashlib kv.1 kv.2 (a, w)
  = (Ok tt, (a, logs (checked a [kv]) w)).
Proof.
  intros Hfile Hmatch. rewrite check_sum_run, Hfile.
  unfold sum_matches in Hmatch.
  destruct (hashlib kv.1); [| discriminate]. by rewrite Hmatch.
Qed.

Lemma check_sum_differing (a : Artifact.t) (w : World) (content : bytes)
    (kv : string * string) :
  fs w !! Artifact.filename a = Some (File content) →
  sum_matches hashlib content kv = false →
  Artifact._check_sum hashlib kv.1 kv.2 (a, w)
  = (Raise (check_sum_error hashlib a content kv), (a, logs (checked a [kv]) w)).
Proof.
  intros Hfile Hdiffer. rewrite check_sum_run, Hfile.
  unfold sum_matches in Hdiffer. unfold check_sum_error.
  destruct (hashlib kv.1); [by rewrite Hdiffer | reflexivity].
Qed.

End verification.

Lemma first_failure {A} (P : A → bool) (l : list A) :
  ¬ Forall (λ x, P x = true) l →
  ∃ pre x post, l = (pre ++ x :: post)%list
                ∧ Forall (λ x, P x = true) pre ∧ P x = false.
Proof.
  induction l as [|y l IH]; intros Hnot.
  - destruct Hnot. constructor.
  - destruct (P y) eqn:Hy.
    + destruct IH as (pre & x & post & -> & Hpre & Hx).
      { intros Hall. apply Hnot. by constructor. }
      exists (y :: pre), x, post. repeat split; [by constructor | assumption].
    + exists [], y, l. repeat split; [constructor | assumption].
Qed.

(** Rewrite with a fact once the projections of pairs in it are computed. *)
Ltac rewrite_projected H :=
  let E := fresh "E" in
  pose proof H as E; cbn [fst snd] in E; rewrite E; clear E.

Section verify_loop.

Variable hashlib : string → option (bytes → string).
Variable a : Artifact.t.
Variable content : bytes.

Lemma verify_loop_all_match (sums : dict) (w : World) :
  fs w !! Artifact.filename a = Some (File content) →
  Forall (λ kv, sum_matches hashlib content kv = true) sums →
  for_each sums (check_each hashlib) (a, w) = (Ok tt, (a, logs (checked a sums) w)).
Proof.
  intros Hfile Hall. revert w Hfile.
  induction Hall as [|[alg chk] sums Hkv _ IH]; intros w Hfile.
  - cbn [for_each checked map]. step. by rewrite logs_nil.
  - cbn [for_each]. step. unfold check_each at 1. cbv beta iota.
    rewrite_projected (check_sum_matching hashlib a w content (alg, chk) Hfile Hkv).
    rewrite IH by exact Hfile. by rewrite logs_logs.
Qed.

Lemma verify_loop_first_mismatch (pre post : dict) (kv : string * string)
    (w : World) :
  fs w !! Artifact.filename a = Some (File content) →
  Forall (λ kv, sum_matches hashlib content kv = true) pre →
  sum_matches hashlib content kv = false →
  for_each (pre ++ kv :: post)%list (check_each hashlib) (a, w)
  = (Raise (check_sum_error hashlib a content kv),
     (a, logs (checked a (pre ++ [kv])%list) w)).
Proof.
  intros Hfile Hpre Hdiffer. revert w Hfile.
  induction Hpre as [|[alg chk] pre Hkv _ IH]; intros w Hfile.
  - destruct kv as [alg chk]. cbn [app for_each]. step. unfold check_each at 1. cbv beta iota.
    by rewrite_projected
         (check_sum_differing hashlib a w content (alg, chk) Hfile Hdiffer).
  - cbn [app for_each]. step. unfold check_each at 1. cbv beta iota.
    rewrite_projected (check_sum_matching hashlib a w content (alg, chk) Hfile Hkv).
    rewrite IH by exact Hfile. by rewrite logs_logs.
Qed.

(** Whatever its outcome, the loop leaves the artifact and the files
    alone and records one [_check_sum] for each checksum it got to. *)
Lemma verify_loop_effects (sums : dict) (w : World) :
  ∃ n r, for_each sums (check_each hashlib) (a, w) = (r, (a, logs (checked a (take n sums)) w)).
Proof.
  revert w. induction sums as [|[alg chk] sums IH]; intros w.
  - exists 0%nat, (Ok tt). cbn. by rewrite logs_nil.
  - cbn [for_each]. step. unfold check_each at 1. cbv beta iota.
    pose proof (f_equal snd (check_sum_run hashlib alg chk a w)) as Hstate.
    destruct (Artifact._check_sum hashlib alg chk (a, w)) as [[[]|e'] s];
      cbn [snd] in Hstate; subst s.
    + destruct (IH (logs [CheckSum alg (Artifact.filename a)] w)) as (n & r & Hn).
      exists (S n), r. rewrite Hn, logs_logs. reflexivity.
    + exists 1%nat, (Raise e'). cbn. by rewrite take_0.
Qed.

Lemma verify_run (w : World) :
  Artifact.verify hashlib (a, w)
  = if check_integrity (Artifact_class w)
    then match for_each (Artifact.sums a) (check_each hashlib) (a, w) with
         | (Ok _, s) => (Ok true, s)
         | (Raise e, s) => (Raise e, s)
         end
    else (Ok true, (a, w)).
Proof.
  unfold Artifact.verify. step.
  destruct (check_integrity (Artifact_class w)); [|reflexivity].
  cbn [negb]. unfold check_each.
  match goal with |- context [for_each ?l ?f ?s] => destruct (for_each l f s) as [[[]|e] s'] end;
    reflexivity.
Qed.

(** With integrity checking on and the file in place: all declared
    checksums match and [verify] returns [True], having checked each
    once and in order; or it raises the error of the first one that
    differs, having checked none after it. *)
Lemma verify_enabled (w : World) :
  check_integrity (Artifact_class w) = true →
  fs w !! Artifact.filename a = Some (File content) →
  (Forall (λ kv, sum_matches hashlib content kv = true) (Artifact.sums a) →
   Artifact.verify hashlib (a, w)
   = (Ok true, (a, logs (checked a (Artifact.sums a)) w)))
  ∧ (∀ pre kv post,
       Artifact.sums a = (pre ++ kv :: post)%list →
       Forall (λ kv, sum_matches hashlib content kv = true) pre →
       sum_matches hashlib content kv = false →
       Artifact.verify hashlib (a, w)
       = (Raise (check_sum_error hashlib a content kv),
          (a, logs (checked a (pre ++ [kv])%list) w))).
Proof.
  intros Hon Hfile. split.
  - intros Hall. by rewrite verify_run, Hon, (verify_loop_all_match _ _ Hfile Hall).
  - intros pre kv post Hsums Hpre Hdiffer.
    rewrite verify_run, Hon, Hsums.
    by rewrite (verify_loop_first_mismatch pre post kv w Hfile Hpre Hdiffer).
Qed.

Lemma verify_effects (w : World) :
  ∃ n r, Artifact.verify hashlib (a, w)
         = (r, (a, logs (checked a (take n (Artifact.sums a))) w)).
Proof.
  rewrite verify_run. destruct (check_integrity (Artifact_class w)).
  - destruct (verify_loop_effects (Artifact.sums a) w) as (n & r & ->). exists n.
    destruct r as [[]|e]; eauto.
  - exists 0%nat, (Ok true). cbn. by rewrite logs_nil.
Qed.

Lemma verify_disabled (w : World) :
  check_integrity (Artifact_class w) = false →
  Artifact.verify hashlib (a, w) = (Ok true, (a, w)).
Proof. intros Hoff. by rewrite verify_run, Hoff. Qed.

End verify_loop.

(** ** A fresh download *)

Lemma write_loop (p : string) (cs : list bytes) (content : bytes)
    (a : Artifact.t) (w : World) :
  for_each cs (λ chunk, Artifact.in_world (os.write p chunk)) (a, with_file p content w)
  = (Ok tt, (a, logs (map (FileWrite p) cs) (with_file p (content ++ concat cs)%list w))).
Proof.
  revert content w. induction cs as [|c cs IH]; intros content w.
  - cbn [for_each map concat]. step. by rewrite logs_nil, app_nil_r.
  - cbn [for_each map concat]. step. unfold os.write at 1. step.
    replace (set_fs _ (log (FileWrite p c) (with_file p content w)))
      with (with_file p (content ++ c)%list (logs [FileWrite p c] w)).
    + rewrite IH. unfold logs, with_file, set_fs. cbn.
      by rewrite <- !app_assoc.
    + unfold logs, with_file, set_fs, log. cbn. by rewrite alter_insert_eq.
Qed.

Lemma writes_are_no_check_sums (p : string) (cs : list bytes) :
  Forall (λ e, is_check_sum e = false) (map (FileWrite p) cs).
Proof. induction cs; constructor; auto. Qed.

Lemma open_wb_run (p : string) (w : World) :
  os.open_wb p w
  = match fs w !! p with
    | Some Dir => (Raise (OSError p), w)
    | _ => if parent_exists w p then (Ok tt, with_file p [] w)
           else (Raise (OSError p), w)
    end.
Proof.
  unfold os.open_wb, parent_exists. step.
  destruct (fs w !! p) as [[content|]|]; try reflexivity;
    destruct (_ || _)%bool; reflexivity.
Qed.

(** The last lines of [fetch]: open the destination, write the chunks of
    the response, return [self]. *)
Lemma store_run (a : Artifact.t) (w : World) (p : string) (status : Z) (body : bytes) :
  (Artifact.in_world (os.open_wb p);;
   for_each (requests.iter_content 1024 (Response status body))
     (λ chunk, Artifact.in_world (os.write p chunk));;
   Artifact.self_) (a, w)
  = match fs w !! p with
    | Some Dir => (Raise (OSError p), (a, w))
    | _ => if parent_exists w p
           then (Ok a, (a, logs (map (FileWrite p) (chunks 1024 body))
                             (with_file p body w)))
           else (Raise (OSError p), (a, w))
    end.
Proof.
  unfold mbind, M_bind, bind. unfold Artifact.in_world at 1. cbn [fst snd].
  rewrite open_wb_run.
  assert (Hstore :
    (let (r, s') :=
       for_each (requests.iter_content 1024 (Response status body))
         (λ chunk, Artifact.in_world (os.write p chunk)) (a, with_file p [] w) in
     match r with
     | Ok _ => Artifact.self_ s'
     | Raise e => (Raise e, s')
     end)
    = (Ok a, (a, logs (map (FileWrite p) (chunks 1024 body)) (with_file p body w)))).
  { rewrite write_loop. cbn [requests.iter_content app].
    rewrite chunks_concat by lia. reflexivity. }
  destruct (fs w !! p) as [[content|]|]; try reflexivity;
    destruct (parent_exists w p); try reflexivity; exact Hstore.
Qed.

(** A fresh download that is answered with status 200 stores the body
    of the response at the destination and returns the artifact; the
    declared checksums play no part. *)
Lemma fetch_fresh_download (a : Artifact.t) (w : World) (u : string) (body : bytes) :
  fs w !! destination a w = None →
  parent_exists w (destination a w) = true →
  fetch_url a w = Some u →
  network w u (ssl_verify (Artifact_class w)) = Ok (Response 200 body) →
  ∃ a', Artifact.fetch (a, w)
        = (Ok a',
           (a', logs (HttpGet u (ssl_verify (Artifact_class w))
                        :: map (FileWrite (destination a w)) (chunks 1024 body))
                  (with_file (destination a w) body w)))
        ∧ Artifact.sums a' = Artifact.sums a.
Proof.
  intros Habsent Hparent Hurl Hnet. rewrite fetch_after_generate_url. cbv zeta.
  rewrite bool_decide_eq_false_2 by (rewrite Habsent; by intros [? ?]).
  unfold fetch_url in Hurl. rewrite Hurl, Hnet.
  rewrite bool_decide_eq_false_2 by (cbn; intros H; by apply H).
  pose proof (generate_url_keeps a w) as (_ & Hsums & _). cbv zeta in Hsums.
  eexists. split; [|exact Hsums].
  rewrite store_run. cbn [fs log]. rewrite Habsent.
  change (parent_exists (log ?e w) ?p) with (parent_exists w p). rewrite Hparent.
  unfold logs, with_file, set_fs, log. cbn. by rewrite <- app_assoc.
Qed.

(** Whatever [fetch] does and however it ends, it computes no checksum. *)
Lemma fetch_events (a : Artifact.t) (w : World) :
  ∃ evs, trace (snd (snd (Artifact.fetch (a, w)))) = (trace w ++ evs)%list
         ∧ Forall (λ e, is_check_sum e = false) evs.
Proof.
  rewrite fetch_after_generate_url. cbv zeta.
  destruct (bool_decide _).
  { exists []. cbn. by rewrite app_nil_r. }
  destruct (Artifact.url _) as [u|].
  2: { exists []. cbn. by rewrite app_nil_r. }
  destruct (network w u _) as [[status body]|e].
  2: { eexists [_]. cbn. split; [reflexivity | by repeat constructor]. }
  destruct (bool_decide _).
  { eexists [_]. cbn. split; [reflexivity | by repeat constructor]. }
  rewrite store_run.
  set (dest := destination a w).
  set (get := HttpGet u (ssl_verify (Artifact_class w))).
  assert (Hfail : ∃ evs, trace (log get w) = (trace w ++ evs)%list
                         ∧ Forall (λ e, is_check_sum e = false) evs).
  { exists [get]. cbn. split; [reflexivity | by repeat constructor]. }
  assert (Hwrite : ∃ evs,
             trace (logs (map (FileWrite dest) (chunks 1024 body))
                      (with_file dest body (log get w)))
             = (trace w ++ evs)%list
             ∧ Forall (λ e, is_check_sum e = false) evs).
  { exists (get :: map (FileWrite dest) (chunks 1024 body)). cbn.
    split; [by rewrite <- app_assoc|].
    constructor; [reflexivity | apply writes_are_no_check_sums]. }
  destruct (fs (log get w) !! dest) as [[content|]|];
    [ | exact Hfail | ];
    (destruct (parent_exists (log get w) dest); [exact Hwrite | exact Hfail]).
Qed.

(** ** Fetching and verifying *)

(** C1, as the claim has it, fails: the artifact declares an md5 sum
    that the downloaded byte does not have, and yet the fresh download
    succeeds, the file is stored, and among the effects of [fetch] there
    is no checksum computation at all. *)
Lemma fetch_accepts_mismatch :
  ∃ a' w',
    Artifact.fetch (demo_artifact, demo_world {[ "out" := Dir ]} ∅ 200 one_byte true)
    = (Ok a', (a', w'))
    ∧ Artifact.sums a' = [("md5", "D41D")]
    ∧ fs w' !! "out/a.tgz" = Some (File one_byte)
    ∧ sum_matches toy_hashlib one_byte ("md5", "D41D") = false
    ∧ trace w' = [HttpGet "http://host/a.tgz" true; FileWrite "out/a.tgz" one_byte].
Proof. do 2 eexists. vm_compute. repeat split. Qed.

(** C1, amended. [fetch] computes no checksum, however it ends, and a
    fresh download answered with status 200 succeeds whatever checksums
    are declared: it returns the artifact, sums untouched, and the file
    system it leaves is the one it found with the body of the response
    stored at the destination. Verification is [verify]: with integrity
    checking on and the file in place, it checks every entry of
    [self.sums] once, in the order of [self.sums], and returns [True]
    when all match; at the first one that differs it fails, the later
    ones unchecked. *)
Theorem fetch_leaves_verification_to_verify :
  (∀ a w, ∃ evs,
      trace (snd (snd (Artifact.fetch (a, w)))) = (trace w ++ evs)%list
      ∧ Forall (λ e, is_check_sum e = false) evs)
  ∧ (∀ a w u body,
       fs w !! destination a w = None →
       parent_exists w (destination a w) = true →
       fetch_url a w = Some u →
       network w u (ssl_verify (Artifact_class w)) = Ok (Response 200 body) →
       ∃ a' w', Artifact.fetch (a, w) = (Ok a', (a', w'))
                ∧ Artifact.sums a' = Artifact.sums a
                ∧ fs w' = <[destination a w := File body]> (fs w)
                ∧ fs w' !! destination a w = Some (File body))
  ∧ (∀ hashlib a w content,
       check_integrity (Artifact_class w) = true →
       fs w !! Artifact.filename a = Some (File content) →
       (Forall (λ kv, sum_matches hashlib content kv = true) (Artifact.sums a) →
        Artifact.verify hashlib (a, w)
        = (Ok true, (a, logs (checked a (Artifact.sums a)) w)))
       ∧ (∀ pre kv post,
            Artifact.sums a = (pre ++ kv :: post)%list →
            Forall (λ kv, sum_matches hashlib content kv = true) pre →
            sum_matches hashlib content kv = false →
            Artifact.verify hashlib (a, w)
            = (Raise (check_sum_error hashlib a content kv),
               (a, logs (checked a (pre ++ [kv])%list) w)))).
Proof.
  split; [exact fetch_events | split].
  - intros a w u body Habsent Hparent Hurl Hnet.
    destruct (fetch_fresh_download a w u body Habsent Hparent Hurl Hnet)
      as (a' & Hrun & Hsums).
    eexists a', _. split; [exact Hrun|].
    split; [exact Hsums|]. split; [reflexivity|].
    cbn [logs with_file set_fs fs]. apply lookup_insert_eq.
  - intros hashlib a w content. apply verify_enabled.
Qed.

Lemma fetch_leaves_verification_to_verify_witness :
  (∃ a' w',
      Artifact.fetch (demo_artifact, demo_world {[ "out" := Dir ]} ∅ 200 one_byte true)
      = (Ok a', (a', w'))
      ∧ Artifact.sums a' = [("md5", "D41D")]
      ∧ fs w' = <["out/a.tgz" := File one_byte]> {[ "out" := Dir ]}
      ∧ fs w' !! "out/a.tgz" = Some (File one_byte))
  ∧ Artifact.verify toy_hashlib (demo_artifact, demo_world stored_files ∅ 200 [] true)
    = (Raise (check_sum_error toy_hashlib demo_artifact one_byte ("md5", "D41D")),
       (demo_artifact,
        logs [CheckSum "md5" "out/a.tgz"] (demo_world stored_files ∅ 200 [] true))).
Proof.
  destruct fetch_leaves_verification_to_verify as (_ & Hfetch & Hverify). split.
  - exact (Hfetch demo_artifact (demo_world {[ "out" := Dir ]} ∅ 200 one_byte true)
             "http://host/a.tgz" one_byte eq_refl eq_refl eq_refl eq_refl).
  - destruct (Hverify toy_hashlib demo_artifact
                (demo_world stored_files ∅ 200 [] true) one_byte eq_refl eq_refl)
      as [_ Hdiffer].
    exact (Hdiffer [] ("md5", "D41D") [] eq_refl (Forall_nil_2 _) eq_refl).
Defined.

(** C3, as the claim has it, fails: with integrity checking switched
    off, [verify] returns [True] although the declared md5 sum is not
    the digest of the file. *)
Lemma verify_unchecked_succeeds :
  ¬ (fst (Artifact.verify toy_hashlib
            (demo_artifact, demo_world stored_files ∅ 200 [] false)) = Ok true
     ↔ Forall (λ kv, sum_matches toy_hashlib one_byte kv = true)
         (Artifact.sums demo_artifact)).
Proof.
  intros [Hall _]. specialize (Hall eq_refl).
  apply Forall_cons_1 in Hall as [Hmd5 _]. discriminate Hmd5.
Qed.

(** C3, amended. With integrity checking on and the file in place,
    [verify] returns [True] exactly when every declared checksum equals
    the digest of the file, hex digits compared without regard to case;
    when one differs and its algorithm is known to [hashlib], [verify]
    raises [DogenError]. With integrity checking off, [verify] returns
    [True] and does nothing. *)
Theorem verify_succeeds_iff_all_match (hashlib : string → option (bytes → string))
    (a : Artifact.t) (w : World) (content : bytes) :
  fs w !! Artifact.filename a = Some (File content) →
  (check_integrity (Artifact_class w) = true →
   (fst (Artifact.verify hashlib (a, w)) = Ok true
    ↔ Forall (λ kv, sum_matches hashlib content kv = true) (Artifact.sums a))
   ∧ (Forall (λ kv, is_Some (hashlib kv.1)) (Artifact.sums a) →
      ¬ Forall (λ kv, sum_matches hashlib content kv = true) (Artifact.sums a) →
      ∃ msg, fst (Artifact.verify hashlib (a, w)) = Raise (DogenError msg None)))
  ∧ (check_integrity (Artifact_class w) = false →
     Artifact.verify hashlib (a, w) = (Ok true, (a, w))).
Proof.
  intros Hfile. split; [|apply verify_disabled].
  intros Hon. destruct (verify_enabled hashlib a content w Hon Hfile) as [Hall Hfirst].
  assert (Hfails : ¬ Forall (λ kv, sum_matches hashlib content kv = true) (Artifact.sums a) →
                   ∃ kv, kv ∈ Artifact.sums a
                         ∧ fst (Artifact.verify hashlib (a, w))
                           = Raise (check_sum_error hashlib a content kv)).
  { intros (pre & kv & post & Hsums & Hpre & Hkv)%first_failure.
    exists kv. split; [rewrite Hsums; set_solver|].
    by rewrite (Hfirst pre kv post Hsums Hpre Hkv). }
  split; [split|].
  - intros Hok.
    destruct (Forall_dec (λ kv, sum_matches hashlib content kv = true) (Artifact.sums a))
      as [Hyes|Hno]; [assumption|].
    destruct (Hfails Hno) as (kv & _ & Hraise). congruence.
  - intros Hyes. by rewrite (Hall Hyes).
  - intros Hknown Hno. destruct (Hfails Hno) as (kv & Hin & ->).
    rewrite Forall_forall in Hknown. destruct (Hknown kv Hin) as [hexdigest Hhash].
    unfold check_sum_error. rewrite Hhash. eauto.
Qed.

Lemma verify_succeeds_iff_all_match_witness :
  (fst (Artifact.verify toy_hashlib (demo_artifact, demo_world stored_files ∅ 200 [] true))
   = Ok true
   ↔ Forall (λ kv, sum_matches toy_hashlib one_byte kv = true)
       (Artifact.sums demo_artifact))
  ∧ (∃ msg, fst (Artifact.verify toy_hashlib
                   (demo_artifact, demo_world stored_files ∅ 200 [] true))
            = Raise (DogenError msg None)).
Proof.
  destruct (verify_succeeds_iff_all_match toy_hashlib demo_artifact
              (demo_world stored_files ∅ 200 [] true) one_byte eq_refl)
    as [Hon _].
  destruct (Hon eq_refl) as [Hiff Hraise]. split; [exact Hiff|].
  apply Hraise.
  - repeat constructor. by eexists.
  - intros [Hmd5 _]%Forall_cons_1. discriminate Hmd5.
Defined.

(** Upper-case hex digits in the descriptor match the lower-case digest. *)
Example verify_ignores_case :
  Artifact.verify toy_hashlib
    (demo_artifact, demo_world {[ "out" := Dir; "out/a.tgz" := File [] ]} ∅ 200 [] true)
  = (Ok true,
     (demo_artifact,
      logs [CheckSum "md5" "out/a.tgz"]
        (demo_world {[ "out" := Dir; "out/a.tgz" := File [] ]} ∅ 200 [] true))).
Proof. reflexivity. Qed.

(** C10. An artifact built from a descriptor entry records exactly the
    checksums of the entry whose key is sha256, sha1 or md5. A checksum
    under any other key is dropped without notice: the artifact built is
    the same with or without it, and no [verify] of the artifact ever
    computes a checksum for that key. *)
Theorem init_records_supported_sums_only (d : gmap string string) (w w' : World)
    (a : Artifact.t) :
  Artifact.__init__ d w = (Ok a, w') →
  (∀ alg digest, (alg, digest) ∈ Artifact.sums a
                 ↔ alg ∈ SUPPORTED_HASH_ALGORITHMS ∧ d !! alg = Some digest)
  ∧ (∀ k v, k ∉ SUPPORTED_HASH_ALGORITHMS → k ≠ "artifact" → k ≠ "name" →
            Artifact.__init__ (<[k := v]> d) w = (Ok a, w'))
  ∧ (∀ hashlib w1 k, k ∉ SUPPORTED_HASH_ALGORITHMS →
       ∃ evs, trace (snd (snd (Artifact.verify hashlib (a, w1)))) = (trace w1 ++ evs)%list
              ∧ ∀ p, CheckSum k p ∉ evs).
Proof.
  intros Hinit.
  assert (Hsums : ∀ alg digest, (alg, digest) ∈ Artifact.sums a
                                ↔ alg ∈ SUPPORTED_HASH_ALGORITHMS ∧ d !! alg = Some digest).
  { apply init_inv in Hinit as (_ & _ & _ & -> & _). intros alg digest.
    rewrite list_elem_of_omap. split.
    - intros (x & Hx & Hfx). destruct (d !! x) as [v|] eqn:Hdx; [|discriminate].
      injection Hfx as -> ->. auto.
    - intros [Halg Hd]. exists alg. by rewrite Hd. }
  split; [exact Hsums | split].
  - intros k v Hk Hartifact Hname. rewrite <- Hinit, !init_run.
    rewrite !lookup_insert_ne by done.
    assert (Hsame : ∀ alg, alg ∈ SUPPORTED_HASH_ALGORITHMS → <[k:=v]> d !! alg = d !! alg).
    { intros alg Halg. apply lookup_insert_ne. by intros ->. }
    unfold SUPPORTED_HASH_ALGORITHMS in *. cbn [omap list_omap].
    rewrite (Hsame "sha256"), (Hsame "sha1"), (Hsame "md5")
      by (rewrite !elem_of_cons; auto).
    reflexivity.
  - intros hashlib w1 k Hk.
    destruct (verify_effects hashlib a w1) as (n & r & ->).
    exists (checked a (take n (Artifact.sums a))). split; [reflexivity|].
    intros p Hin. apply list_elem_of_In, in_map_iff in Hin as ([alg digest] & [= Halg _] & Hkv).
    apply list_elem_of_In, elem_of_take in Hkv as (i & Hkv%list_elem_of_lookup_2 & _).
    cbn [fst] in Halg. subst alg. apply Hsums in Hkv as [Halg _]. by apply Hk.
Qed.

Lemma init_records_supported_sums_only_witness :
  (∀ alg digest, (alg, digest) ∈ Artifact.sums demo_artifact
                 ↔ alg ∈ SUPPORTED_HASH_ALGORITHMS ∧ demo_entry !! alg = Some digest)
  ∧ Artifact.__init__ (<["sha384" := "00"]> demo_entry) (demo_world ∅ ∅ 200 [] true)
    = (Ok demo_artifact, demo_world ∅ ∅ 200 [] true)
  ∧ (∃ evs, trace (snd (snd (Artifact.verify toy_hashlib
                               (demo_artifact, demo_world stored_files ∅ 200 [] true))))
            = (trace (demo_world stored_files ∅ 200 [] true) ++ evs)%list
            ∧ ∀ p, CheckSum "sha512" p ∉ evs).
Proof.
  destruct (init_records_supported_sums_only demo_entry
              (demo_world ∅ ∅ 200 [] true) (demo_world ∅ ∅ 200 [] true)
              demo_artifact eq_refl) as (Hsums & Hdrop & Hverify).
  split; [exact Hsums | split].
  - apply Hdrop; [|discriminate|discriminate].
    apply (bool_decide_unpack _). vm_compute. exact I.
  - apply Hverify. apply (bool_decide_unpack _). vm_compute. exact I.
Defined.

(** ** [cleanup] *)

Lemma append_cons (c : ascii) (s t : string) :
  String c s +:+ t = String c (s +:+ t).
Proof. reflexivity. Qed.

Lemma append_assoc (s t u : string) : (s +:+ t) +:+ u = s +:+ (t +:+ u).
Proof.
  induction s as [|c s IH]; [reflexivity|].
  by rewrite !append_cons, IH.
Qed.

Lemma append_empty_inv (s t : string) : s +:+ t = "" → t = "".
Proof. destruct s; [auto | discriminate]. Qed.

Lemma endswith_append (s t : string) :
  t ≠ "" → endswith (s +:+ t) sep = endswith t sep.
Proof.
  intros Ht. induction s as [|c s IH]; [reflexivity|].
  rewrite append_cons. cbn [endswith]. rewrite IH.
  destruct (String.eqb_spec (String c (s +:+ t)) sep) as [Heq|_]; [|reflexivity].
  injection Heq as _ Hnil. by apply append_empty_inv in Hnil.
Qed.

Lemma eqb_append (b x y : string) :
  String.eqb (b +:+ x) (b +:+ y) = String.eqb x y.
Proof.
  induction b as [|c b IH]; [reflexivity|].
  rewrite !append_cons. cbn [String.eqb]. by rewrite Ascii.eqb_refl.
Qed.

Lemma prefix_append (b x y : string) :
  String.prefix (b +:+ x) (b +:+ y) = String.prefix x y.
Proof.
  induction b as [|c b IH]; [reflexivity|].
  rewrite !append_cons. cbn [String.prefix].
  destruct (ascii_dec c c); [exact IH | congruence].
Qed.

Lemma under_append (b x y : string) :
  os.under (b +:+ x) (b +:+ y) = os.under x y.
Proof. unfold os.under. by rewrite eqb_append, append_assoc, prefix_append. Qed.

Lemma join2_name (path name : string) :
  startswith name sep = false → join2 path name = slashed path +:+ name.
Proof.
  intros Hrel. unfold join2, slashed. rewrite Hrel.
  destruct (_ || _)%bool; [reflexivity | by rewrite append_assoc].
Qed.

Lemma slashed_append (s t : string) : t ≠ "" →
  endswith t sep = false → slashed (s +:+ t) = s +:+ t +:+ sep.
Proof.
  intros Ht Hend. unfold slashed. rewrite endswith_append, Hend by assumption.
  destruct (String.eqb_spec (s +:+ t) "") as [Hnil|_].
  - by apply append_empty_inv in Hnil.
  - cbn [orb]. apply append_assoc.
Qed.

(** The three directories, spelled out. *)
Lemma dirty_dirs_paths (target : string) :
  dirty_dirs target
  = [slashed target +:+ "image/modules"; slashed target +:+ "image/repos";
     slashed target +:+ "repo"].
Proof.
  unfold dirty_dirs, join. cbn [foldl].
  rewrite !(join2_name target) by reflexivity.
  rewrite !join2_name by reflexivity.
  rewrite !slashed_append by done.
  by rewrite !append_assoc.
Qed.

Lemma filter_under_lookup (d p : string) (m : gmap string node) :
  filter (λ kv, os.under d kv.1 = false) m !! p
  = if os.under d p then None else m !! p.
Proof.
  rewrite map_lookup_filter. cbn [fst].
  destruct (m !! p) as [n|]; cbn; [|by destruct (os.under d p)].
  destruct (os.under d p); [by rewrite option_guard_False | by rewrite option_guard_True].
Qed.

Lemma sweep_lookup (d p : string) (w : World) :
  fs (sweep d w) !! p
  = if (is_dir (fs w !! d) && os.under d p)%bool then None else fs w !! p.
Proof.
  unfold sweep. destruct (is_dir (fs w !! d)); [|reflexivity].
  cbn [fs set_fs log andb]. apply filter_under_lookup.
Qed.


Lemma if_exists_rmtree_run (d : string) (w : World) :
  if_exists_rmtree d w
  = match fs w !! d with
    | Some (File _) => (Raise (OSError d), w)
    | _ => (Ok tt, sweep d w)
    end.
Proof.
  unfold if_exists_rmtree, os.exists_, os.rmtree, sweep. step.
  destruct (fs w !! d) as [[content|]|] eqn:Hd; cbn; rewrite ?Hd; reflexivity.
Qed.

Lemma if_exists_rmtree_ok (d : string) (w : World) :
  absent_or_dir (fs w !! d) → if_exists_rmtree d w = (Ok tt, sweep d w).
Proof. rewrite if_exists_rmtree_run. by intros [-> | ->]. Qed.

(** Whatever happens, a path outside the directories swept is as before. *)
Lemma sweeping_frame (ds : list string) (w : World) (p : string) :
  Forall (λ d, os.under d p = false) ds →
  fs (snd (for_each ds if_exists_rmtree w)) !! p = fs w !! p.
Proof.
  intros Hout. revert w. induction Hout as [|d ds Hd _ IH]; intros w; [reflexivity|].
  cbn [for_each]. unfold bind. rewrite if_exists_rmtree_run.
  destruct (fs w !! d) as [[content|]|] eqn:Hlookup; try reflexivity;
    rewrite IH, sweep_lookup, Hd, andb_false_r; reflexivity.
Qed.

Section three_directories.

Variables d1 d2 d3 : string.
Hypothesis d1_d2 : os.under d1 d2 = false.
Hypothesis d1_d3 : os.under d1 d3 = false.
Hypothesis d2_d3 : os.under d2 d3 = false.

Lemma sweep_three (w : World) :
  absent_or_dir (fs w !! d1) → absent_or_dir (fs w !! d2) →
  absent_or_dir (fs w !! d3) →
  for_each [d1; d2; d3] if_exists_rmtree w = (Ok tt, sweep d3 (sweep d2 (sweep d1 w)))
  ∧ ∀ p, fs (sweep d3 (sweep d2 (sweep d1 w))) !! p
         = if existsb (λ d, is_dir (fs w !! d) && os.under d p) [d1; d2; d3]
           then None else fs w !! p.
Proof.
  intros H1 H2 H3.
  assert (E2 : fs (sweep d1 w) !! d2 = fs w !! d2).
  { by rewrite sweep_lookup, d1_d2, andb_false_r. }
  assert (E3 : fs (sweep d2 (sweep d1 w)) !! d3 = fs w !! d3).
  { by rewrite !sweep_lookup, d2_d3, d1_d3, !andb_false_r. }
  split.
  - cbn [for_each]. unfold bind, ret.
    rewrite (if_exists_rmtree_ok d1 w H1). cbv beta iota.
    rewrite (if_exists_rmtree_ok d2 (sweep d1 w)) by (by rewrite E2). cbv beta iota.
    by rewrite (if_exists_rmtree_ok d3 (sweep d2 (sweep d1 w))) by (by rewrite E3).
  - intros p. rewrite sweep_lookup, E3, sweep_lookup, E2, sweep_lookup. cbn [existsb].
    destruct (is_dir (fs w !! d1) && os.under d1 p)%bool,
             (is_dir (fs w !! d2) && os.under d2 p)%bool,
             (is_dir (fs w !! d3) && os.under d3 p)%bool; reflexivity.
Qed.

End three_directories.



Example cleanup_example :
  let w' := snd (cleanup "out" (demo_world dirty_files ∅ 200 [] true)) in
  fs w' !! "out/image/modules" = None
  ∧ fs w' !! "out/image/modules/jdk/module.yaml" = None
  ∧ fs w' !! "out/repo/a.repo" = None
  ∧ fs w' !! "out/image/modulesX" = Some (File [])
  ∧ fs w' !! "out/repository" = Some Dir
  ∧ fs w' !! "out/Dockerfile" = Some (File one_byte)
  ∧ trace w' = [Rmtree "out/image/modules"; Rmtree "out/image/repos"; Rmtree "out/repo"].
Proof. vm_compute. repeat split. Qed.

(** ** [load_descriptor] *)

Section loading.

Variable yaml : Type.
Variable yaml_safe_load : bytes → result yaml.
Variable core : Type.
Variable Core : yaml → yaml → result core.
Variable validate : core → result yaml.
Variable __file__ : string.

(** The errors [load_descriptor] raises itself. It raises [DogenError]
    when the schema of the requested type is not found. With the schema
    found and parsed, it raises [DogenError] when the descriptor file is
    not found. With both parsed and the validator set up, whatever
    [validate] raises reaches the caller only wrapped in the one
    [DogenError "Cannot validate schema"]; a descriptor that validates
    is returned. No file is changed on any of these paths. *)
Theorem load_descriptor_errors (descriptor_path schema_type : string) (w : World) :
  (fs w !! schema_path_of __file__ schema_type = None →
   load_descriptor yaml yaml_safe_load core Core validate __file__
     descriptor_path schema_type w
   = (Raise (DogenError ("Cannot locate schema for " +:+ schema_type +:+ ".") None), w))
  ∧ (∀ schema_text schema,
       fs w !! schema_path_of __file__ schema_type = Some (File schema_text) →
       yaml_safe_load schema_text = Ok schema →
       (fs w !! descriptor_path = None →
        load_descriptor yaml yaml_safe_load core Core validate __file__
     descriptor_path schema_type w
        = (Raise (DogenError "Cannot find provided descriptor file" None), w))
       ∧ (∀ text descriptor c,
            fs w !! descriptor_path = Some (File text) →
            yaml_safe_load text = Ok descriptor →
            Core descriptor schema = Ok c →
            load_descriptor yaml yaml_safe_load core Core validate __file__
     descriptor_path schema_type w
            = (match validate c with
               | Ok valid => Ok valid
               | Raise ex => Raise (DogenError "Cannot validate schema" (Some ex))
               end, w))).
Proof.
  unfold load_descriptor, schema_path_of, os.exists_, os.read_file. step.
  split.
  - intros ->. reflexivity.
  - intros schema_text schema Hfound Hschema. rewrite Hfound.
    change (bool_decide (is_Some (Some ?n))) with true.
    cbv beta iota delta [negb]. rewrite Hfound. cbv beta iota. rewrite Hschema.
    split.
    + intros ->. reflexivity.
    + intros text descriptor c Hthere Hdescriptor Hcore. rewrite Hthere.
      change (bool_decide (is_Some (Some ?n))) with true.
      cbv beta iota delta [negb]. rewrite Hthere. cbv beta iota.
      rewrite Hdescriptor, Hcore. by destruct (validate c).
Qed.

(** C6. The code breaks the claim where the validator is set up.
    [Core(source_data=descriptor, schema_data=schema)] stands one line
    before the [try]: with the schema and the descriptor read and
    parsed, an error that [Core] raises reaches the caller as it was
    raised, the world unchanged, while the same error raised by
    [validate] one line later is wrapped in [DogenError "Cannot validate
    schema"]. So a validator error raised by [Core] is surfaced raw: the
    caller gets no [DogenError] at all. *)
Theorem load_descriptor_raw_validator_error
    (descriptor_path schema_type : string) (w : World)
    (schema_text text : bytes) (schema descriptor : yaml) :
  fs w !! schema_path_of __file__ schema_type = Some (File schema_text) →
  yaml_safe_load schema_text = Ok schema →
  fs w !! descriptor_path = Some (File text) →
  yaml_safe_load text = Ok descriptor →
  (∀ e, Core descriptor schema = Raise e →
        load_descriptor yaml yaml_safe_load core Core validate __file__
          descriptor_path schema_type w
        = (Raise e, w))
  ∧ (∀ c e, Core descriptor schema = Ok c →
            validate c = Raise e →
            load_descriptor yaml yaml_safe_load core Core validate __file__
              descriptor_path schema_type w
            = (Raise (DogenError "Cannot validate schema" (Some e)), w))
  ∧ (∀ descr, Core descriptor schema = Raise (ValidatorError descr) →
              ∀ msg cause,
                fst (load_descriptor yaml yaml_safe_load core Core validate __file__
                       descriptor_path schema_type w)
                ≠ Raise (DogenError msg cause)).
Proof.
  intros Hfound Hschema Hthere Hdescriptor.
  assert (Hrun : load_descriptor yaml yaml_safe_load core Core validate __file__
                   descriptor_path schema_type w
                 = (match Core descriptor schema with
                    | Raise e => Raise e
                    | Ok c =>
                        match validate c with
                        | Ok valid => Ok valid
                        | Raise ex => Raise (DogenError "Cannot validate schema" (Some ex))
                        end
                    end, w)).
  { unfold load_descriptor, os.exists_, os.read_file.
    unfold schema_path_of in Hfound. step.
    rewrite Hfound. change (bool_decide (is_Some (Some ?n))) with true.
    cbv beta iota delta [negb]. rewrite Hfound. cbv beta iota. rewrite Hschema.
    rewrite Hthere. change (bool_decide (is_Some (Some ?n))) with true.
    cbv beta iota delta [negb]. rewrite Hthere. cbv beta iota. rewrite Hdescriptor.
    destruct (Core descriptor schema) as [c|e]; [|reflexivity].
    by destruct (validate c). }
  rewrite Hrun. split; [|split].
  - by intros e ->.
  - by intros c e -> ->.
  - by intros descr -> msg cause.
Qed.

End loading.

Lemma load_descriptor_raw_validator_error_witness :
  load_descriptor bytes picky_safe_load (bytes * bytes) picky_Core toy_validate
    toy_module "empty.yaml" "image" (demo_world picky_files ∅ 200 [] true)
  = (Raise (ValidatorError "No source file/data was loaded"),
     demo_world picky_files ∅ 200 [] true)
  ∧ load_descriptor bytes toy_safe_load (bytes * bytes) toy_Core toy_validate
      toy_module "image.yaml" "image" (demo_world schema_files ∅ 200 [] true)
    = (Raise (DogenError "Cannot validate schema"
                (Some (ValidatorError "Schema validation errors"))),
       demo_world schema_files ∅ 200 [] true)
  ∧ ∀ msg cause,
      fst (load_descriptor bytes picky_safe_load (bytes * bytes) picky_Core
             toy_validate toy_module "empty.yaml" "image"
             (demo_world picky_files ∅ 200 [] true))
      ≠ Raise (DogenError msg cause).
Proof.
  destruct (load_descriptor_raw_validator_error bytes picky_safe_load
              (bytes * bytes) picky_Core toy_validate toy_module
              "empty.yaml" "image" (demo_world picky_files ∅ 200 [] true)
              one_byte [] one_byte [] eq_refl eq_refl eq_refl eq_refl)
    as (Hraw & _ & Hbare).
  destruct (load_descriptor_raw_validator_error bytes toy_safe_load
              (bytes * bytes) toy_Core toy_validate toy_module
              "image.yaml" "image" (demo_world schema_files ∅ 200 [] true)
              one_byte [] one_byte [] eq_refl eq_refl eq_refl eq_refl)
    as (_ & Hwrapped & _).
  split; [exact (Hraw _ eq_refl) | split].
  - exact (Hwrapped ([], one_byte) _ eq_refl eq_refl).
  - exact (Hbare _ eq_refl).
Defined.

Lemma load_descriptor_errors_witness :
  let w := demo_world schema_files ∅ 200 [] true in
  let load := load_descriptor bytes toy_safe_load (bytes * bytes) toy_Core
                toy_validate toy_module in
  load "image.yaml" "module" w
  = (Raise (DogenError "Cannot locate schema for module." None), w)
  ∧ load "absent.yaml" "image" w
    = (Raise (DogenError "Cannot find provided descriptor file" None), w)
  ∧ load "image.yaml" "image" w
    = (Raise (DogenError "Cannot validate schema"
                (Some (ValidatorError "Schema validation errors"))), w).
Proof.
  intros w load.
  destruct (load_descriptor_errors bytes toy_safe_load (bytes * bytes) toy_Core
              toy_validate toy_module "image.yaml" "module" w) as [Hlocate _].
  destruct (load_descriptor_errors bytes toy_safe_load (bytes * bytes) toy_Core
              toy_validate toy_module "absent.yaml" "image" w) as [_ Habsent].
  destruct (load_descriptor_errors bytes toy_safe_load (bytes * bytes) toy_Core
              toy_validate toy_module "image.yaml" "image" w) as [_ Hinvalid].
  split; [exact (Hlocate eq_refl) | split].
  - exact (proj1 (Habsent one_byte one_byte eq_refl eq_refl) eq_refl).
  - exact (proj2 (Hinvalid one_byte one_byte eq_refl eq_refl)
             [] [] ([], one_byte) eq_refl eq_refl eq_refl).
Defined.

(** ** Placeholder substitution *)

Section substitution.

Import Substitution.

Variable overrides : gmap string string.

Lemma emit_empty (o : outcome) : emit "" o = o.
Proof. by destruct o. Qed.

Lemma append_empty_r (s : string) : s +:+ "" = s.
Proof. induction s as [|c s IH]; [reflexivity|]. by rewrite append_cons, IH. Qed.

Lemma snoc_append (s t : string) (c : ascii) : snoc s c +:+ t = s +:+ String c t.
Proof. unfold snoc. by rewrite append_assoc. Qed.

(** Reading a name up to the colon that starts the default literal. *)
Lemma scan_name_to_colon (name acc rest : string) :
  contains ":" name = false → contains "}" name = false →
  resolve_from overrides (InName acc) (name +:+ String ":" rest)
  = resolve_from overrides (InDefault (acc +:+ name) "") rest.
Proof.
  revert acc. induction name as [|c name IH]; intros acc Hcolon Hbrace.
  - rewrite append_empty_r. cbn [String.append resolve_from].
    destruct rest as [|c' rest]; [reflexivity|].
    change (Ascii.eqb ":" "}") with false. reflexivity.
  - cbn [contains] in Hcolon, Hbrace.
    apply orb_false_iff in Hcolon as [Hc1 Hcolon].
    apply orb_false_iff in Hbrace as [Hc2 Hbrace].
    rewrite append_cons. cbn [resolve_from].
    destruct (name +:+ String ":" rest) as [|c' tail] eqn:Htail.
    { by destruct name. }
    rewrite Hc1, Hc2. cbn [andb]. rewrite IH by assumption.
    by rewrite snoc_append.
Qed.

(** Reading a name up to the closing braces. *)
Lemma scan_name_to_close (name acc rest : string) :
  contains ":" name = false → contains "}" name = false →
  resolve_from overrides (InName acc) (name +:+ "}}" +:+ rest)
  = match overrides !! (acc +:+ name) with
    | Some v => emit v (resolve_from overrides Text rest)
    | None => SubstitutionError (acc +:+ name)
    end.
Proof.
  revert acc. induction name as [|c name IH]; intros acc Hcolon Hbrace.
  - rewrite append_empty_r. reflexivity.
  - cbn [contains] in Hcolon, Hbrace.
    apply orb_false_iff in Hcolon as [Hc1 Hcolon].
    apply orb_false_iff in Hbrace as [Hc2 Hbrace].
    rewrite append_cons. cbn [resolve_from].
    destruct (name +:+ "}}" +:+ rest) as [|c' tail] eqn:Htail.
    { by destruct name. }
    rewrite Hc1, Hc2. cbn [andb]. rewrite IH by assumption.
    by rewrite snoc_append.
Qed.

(** Reading a default literal up to the closing braces. *)
Lemma scan_default (name literal acc rest : string) :
  contains "}" literal = false →
  resolve_from overrides (InDefault name acc) (literal +:+ "}}" +:+ rest)
  = emit (default (acc +:+ literal) (overrides !! name))
      (resolve_from overrides Text rest).
Proof.
  revert acc. induction literal as [|c literal IH]; intros acc Hbrace.
  - rewrite append_empty_r. reflexivity.
  - cbn [contains] in Hbrace. apply orb_false_iff in Hbrace as [Hc Hbrace].
    rewrite append_cons. cbn [resolve_from].
    destruct (literal +:+ "}}" +:+ rest) as [|c' tail] eqn:Htail.
    { by destruct literal. }
    rewrite Hc. cbn [andb]. rewrite IH by assumption.
    by rewrite snoc_append.
Qed.

(** A placeholder with a default, followed by any text. *)
Lemma resolve_with_default (name literal rest : string) :
  contains ":" name = false → contains "}" name = false →
  contains "}" literal = false →
  resolve ("{{" +:+ name +:+ ":" +:+ literal +:+ "}}" +:+ rest) overrides
  = emit (default literal (overrides !! name)) (resolve rest overrides).
Proof.
  intros Hcolon Hbrace Hliteral. unfold resolve.
  change ("{{" +:+ ?s) with (String "{" (String "{" s)).
  cbn [resolve_from Ascii.eqb Bool.eqb andb].
  change (":" +:+ ?s) with (String ":" s).
  rewrite scan_name_to_colon by assumption.
  by rewrite scan_default.
Qed.

(** A placeholder without a default, followed by any text. *)
Lemma resolve_without_default (name rest : string) :
  contains ":" name = false → contains "}" name = false →
  resolve ("{{" +:+ name +:+ "}}" +:+ rest) overrides
  = match overrides !! name with
    | Some v => emit v (resolve rest overrides)
    | None => SubstitutionError name
    end.
Proof.
  intros Hcolon Hbrace. unfold resolve.
  change ("{{" +:+ ?s) with (String "{" (String "{" s)).
  cbn [resolve_from Ascii.eqb Bool.eqb andb].
  by rewrite scan_name_to_close.
Qed.

End substitution.

(** C5. For a placeholder [{{X:default}}] (the name free of colons and
    closing braces, the default free of closing braces): without an
    override for [X] it resolves to the default; with an override it
    resolves to the override, as does the bare placeholder [{{X}}]; and
    the bare placeholder without an override fails. *)
Theorem placeholder_precedence (overrides : gmap string string)
    (X literal : string) :
  contains ":" X = false → contains "}" X = false →
  contains "}" literal = false →
  (overrides !! X = None →
   Substitution.resolve ("{{" +:+ X +:+ ":" +:+ literal +:+ "}}") overrides
   = Substitution.Resolved literal)
  ∧ (∀ v, overrides !! X = Some v →
          Substitution.resolve ("{{" +:+ X +:+ ":" +:+ literal +:+ "}}") overrides
          = Substitution.Resolved v
          ∧ Substitution.resolve ("{{" +:+ X +:+ "}}") overrides
            = Substitution.Resolved v)
  ∧ (overrides !! X = None →
     Substitution.resolve ("{{" +:+ X +:+ "}}") overrides
     = Substitution.SubstitutionError X).
Proof.
  intros Hcolon Hbrace Hliteral.
  pose proof (resolve_with_default overrides X literal "" Hcolon Hbrace Hliteral)
    as Hdefault.
  pose proof (resolve_without_default overrides X "" Hcolon Hbrace) as Hbare.
  change ("}}" +:+ "") with "}}" in Hdefault, Hbare.
  rewrite Hdefault, Hbare. unfold Substitution.resolve. cbn [Substitution.resolve_from].
  split; [|split].
  - intros ->. cbn. by rewrite append_empty_r.
  - intros v ->. cbn. by rewrite append_empty_r.
  - intros ->. reflexivity.
Qed.

Lemma placeholder_precedence_witness :
  Substitution.resolve "{{FROM:rhel:7}}" ∅ = Substitution.Resolved "rhel:7"
  ∧ Substitution.resolve "{{FROM:rhel:7}}" {[ "FROM" := "centos:7" ]}
    = Substitution.Resolved "centos:7"
  ∧ Substitution.resolve "{{FROM}}" ∅ = Substitution.SubstitutionError "FROM".
Proof.
  destruct (placeholder_precedence ∅ "FROM" "rhel:7" eq_refl eq_refl eq_refl)
    as (Hdefault & _ & Hbare).
  destruct (placeholder_precedence {[ "FROM" := "centos:7" ]} "FROM" "rhel:7"
              eq_refl eq_refl eq_refl) as (_ & Hoverride & _).
  split; [exact (Hdefault eq_refl) | split].
  - exact (proj1 (Hoverride "centos:7" eq_refl)).
  - exact (Hbare eq_refl).
Defined.

(** The substitutions the tests of the generator expect. *)
Example substitution_examples :
  Substitution.resolve "Image {{VERSION}}" {[ "VERSION" := "1.0" ]}
  = Substitution.Resolved "Image 1.0"
  ∧ Substitution.resolve "{{FROM:rhel:7}}" ∅ = Substitution.Resolved "rhel:7"
  ∧ Substitution.resolve "{{FROM:rhel:7}}" {[ "FROM" := "centos:7" ]}
    = Substitution.Resolved "centos:7".
Proof. repeat split. Qed.

(** ** Library functions on concrete inputs *)

Example join_examples :
  join "out" ["image"; "modules"] = "out/image/modules"
  ∧ join "out/" ["repo"] = "out/repo"
  ∧ join "" ["a.tgz"] = "a.tgz"
  ∧ join "out" ["/abs"] = "/abs".
Proof. repeat split. Qed.

Example dirname_examples :
  dirname "out/a.tgz" = "out" ∧ dirname "a.tgz" = "" ∧ dirname "/a" = "/"
  ∧ dirname "/x/y/" = "/x/y" ∧ dirname "x//y" = "x".
Proof. repeat split. Qed.

Example replace_examples :
  replace "http://c/#filename#?#hash#" "#filename#" "a.tgz" = "http://c/a.tgz?#hash#"
  ∧ replace "aaa" "aa" "b" = "ba"
  ∧ replace "ab" "" "-" = "-a-b-"
  ∧ replace "abc" "x" "y" = "abc".
Proof. repeat split. Qed.

Example lower_example : lower "AbC09f" = "abc09f".
Proof. reflexivity. Qed.

(** * Further properties of [dogen/tools.py] *)

(** ** Building an artifact *)

(** X1. The checksums of an artifact built from a descriptor entry can
    be looked up again: under a supported algorithm the artifact holds
    what the entry holds, under any other name nothing. They are kept in
    the order sha256, sha1, md5 with no algorithm twice, whatever the
    order of the entry. The file name is where [fetch] will store the
    artifact, and no URL is assigned yet. *)
Theorem init_sums_lookup (d : gmap string string) (w w' : World) (a : Artifact.t) :
  Artifact.__init__ d w = (Ok a, w') →
  (∀ alg, dict_get alg (Artifact.sums a)
          = if bool_decide (alg ∈ SUPPORTED_HASH_ALGORITHMS) then d !! alg else None)
  ∧ sublist (map fst (Artifact.sums a)) SUPPORTED_HASH_ALGORITHMS
  ∧ Artifact.filename a = destination a w
  ∧ Artifact.url a = None.
Proof.
  intros Hinit. pose proof Hinit as Hrun. rewrite init_run in Hrun.
  apply init_inv in Hinit as (_ & _ & Hname & Hsums & Hurl).
  destruct (d !! "artifact"), (d !! "name"); try discriminate.
  injection Hrun as <- _.
  split; [|split; [|split; [reflexivity | exact Hurl]]].
  - intros alg. cbn [Artifact.sums].
    unfold SUPPORTED_HASH_ALGORITHMS. cbn [omap list_omap].
    destruct (decide (alg = "sha256")) as [->|H256];
      [|destruct (decide (alg = "sha1")) as [->|H1];
        [|destruct (decide (alg = "md5")) as [->|H5]]].
    1-3: destruct (d !! "sha256"), (d !! "sha1"), (d !! "md5"); reflexivity.
    rewrite bool_decide_eq_false_2
      by (rewrite !elem_of_cons, elem_of_nil; tauto).
    apply String.eqb_neq in H256, H1, H5.
    destruct (d !! "sha256"), (d !! "sha1"), (d !! "md5"); cbn [fmap option_fmap option_map dict_get];
      rewrite ?H256, ?H1, ?H5; reflexivity.
  - cbn [Artifact.sums]. unfold SUPPORTED_HASH_ALGORITHMS. cbn [omap list_omap].
    destruct (d !! "sha256"), (d !! "sha1"), (d !! "md5"); cbn;
      repeat first [apply sublist_nil | apply sublist_skip | apply sublist_cons].
Qed.

Lemma init_sums_lookup_witness :
  (∀ alg, dict_get alg (Artifact.sums demo_artifact)
          = if bool_decide (alg ∈ SUPPORTED_HASH_ALGORITHMS)
            then demo_entry !! alg else None)
  ∧ sublist (map fst (Artifact.sums demo_artifact)) SUPPORTED_HASH_ALGORITHMS
  ∧ Artifact.filename demo_artifact
    = destination demo_artifact (demo_world ∅ ∅ 200 [] true)
  ∧ Artifact.url demo_artifact = None.
Proof.
  exact (init_sums_lookup demo_entry (demo_world ∅ ∅ 200 [] true)
           (demo_world ∅ ∅ 200 [] true) demo_artifact eq_refl).
Defined.

(** ** Resolving the URL *)

(** Once [_generate_url] ran, running it again in an unchanged
    environment changes nothing. *)
Lemma generate_url_again (a : Artifact.t) (w w2 : World) :
  environ w2 = environ w →
  Artifact._generate_url (fst (snd (Artifact._generate_url (a, w))), w2)
  = (Ok tt, (fst (snd (Artifact._generate_url (a, w))), w2)).
Proof.
  intros Henv. rewrite (generate_url_run a w). cbn [fst snd].
  rewrite generate_url_run, Henv.
  destruct (environ w !! "DOGEN_ARTIFACT_CACHE") as [[|c cache]|]; try reflexivity.
  destruct (preferred_sum (Artifact.sums a)) as [[alg digest]|] eqn:Hpref.
  - cbn [Artifact.sums Artifact.set_url]. rewrite Hpref. reflexivity.
  - rewrite Hpref. reflexivity.
Qed.

(** X2. [_generate_url] always returns normally, leaves the world alone
    and changes no attribute of the artifact other than [url]; calling
    it a second time changes nothing at all. *)
Theorem generate_url_idempotent (a : Artifact.t) (w : World) :
  ∃ a', Artifact._generate_url (a, w) = (Ok tt, (a', w))
        ∧ Artifact._generate_url (a', w) = (Ok tt, (a', w))
        ∧ Artifact.name a' = Artifact.name a
        ∧ Artifact.sums a' = Artifact.sums a
        ∧ Artifact.artifact a' = Artifact.artifact a
        ∧ Artifact.filename a' = Artifact.filename a.
Proof.
  exists (fst (snd (Artifact._generate_url (a, w)))).
  pose proof (generate_url_keeps a w) as (Hname & Hsums & Hartifact & Hfile).
  split; [by rewrite generate_url_run | split].
  - by apply generate_url_again.
  - auto.
Qed.

(** ** Downloading *)


(** The state a successful fresh download ends in. *)
Lemma fetch_fresh_run (a : Artifact.t) (w : World) (u : string) (body : bytes) :
  fs w !! destination a w = None →
  parent_exists w (destination a w) = true →
  fetch_url a w = Some u →
  network w u (ssl_verify (Artifact_class w)) = Ok (Response 200 body) →
  Artifact.fetch (a, w)
  = (Ok (fst (snd (Artifact._generate_url (a, w)))),
     (fst (snd (Artifact._generate_url (a, w))),
      logs (HttpGet u (ssl_verify (Artifact_class w))
              :: map (FileWrite (destination a w)) (chunks 1024 body))
        (with_file (destination a w) body w))).
Proof.
  intros Habsent Hparent Hurl Hnet. rewrite fetch_after_generate_url. cbv zeta.
  rewrite bool_decide_eq_false_2 by (rewrite Habsent; by intros [? ?]).
  unfold fetch_url in Hurl. rewrite Hurl, Hnet.
  rewrite bool_decide_eq_false_2 by (cbn; intros H; by apply H).
  rewrite store_run. cbn [fs log]. rewrite Habsent.
  change (parent_exists (log ?e w) ?p) with (parent_exists w p). rewrite Hparent.
  unfold logs, with_file, set_fs, log. cbn. by rewrite <- app_assoc.
Qed.



(** X4. Fetching is idempotent: after a successful fresh download, a
    second [fetch] of the same artifact returns it at once, without a
    request or a write. *)
Theorem fetch_twice (a : Artifact.t) (w : World) (u : string) (body : bytes) :
  fs w !! destination a w = None →
  parent_exists w (destination a w) = true →
  fetch_url a w = Some u →
  network w u (ssl_verify (Artifact_class w)) = Ok (Response 200 body) →
  ∃ a' w', Artifact.fetch (a, w) = (Ok a', (a', w'))
           ∧ Artifact.fetch (a', w') = (Ok a', (a', w')).
Proof.
  intros Habsent Hparent Hurl Hnet.
  do 2 eexists.
  split; [exact (fetch_fresh_run a w u body Habsent Hparent Hurl Hnet)|].
  pose proof (generate_url_keeps a w) as (Hname & _). cbv zeta in Hname.
  set (a' := fst (snd (Artifact._generate_url (a, w)))) in *.
  set (w' := logs _ _).
  assert (Hdest : destination a' w' = destination a w).
  { unfold destination. by rewrite Hname. }
  rewrite fetch_after_generate_url. cbv zeta.
  rewrite Hdest.
  rewrite bool_decide_eq_true_2.
  - subst a'. by rewrite (generate_url_again a w w').
  - subst w'. cbn [fs logs with_file set_fs]. rewrite lookup_insert_eq. by eexists.
Qed.

Lemma fetch_twice_witness :
  ∃ a' w',
    Artifact.fetch (demo_artifact, demo_world {[ "out" := Dir ]} ∅ 200 one_byte true)
    = (Ok a', (a', w'))
    ∧ Artifact.fetch (a', w') = (Ok a', (a', w')).
Proof.
  exact (fetch_twice demo_artifact
           (demo_world {[ "out" := Dir ]} ∅ 200 one_byte true)
           "http://host/a.tgz" one_byte eq_refl eq_refl eq_refl eq_refl).
Defined.

(** X5. When the request itself fails, the error of the transport
    reaches the caller as it is; when the directory the artifact is to
    be stored in does not exist, opening the destination fails after the
    request was made. In both cases no file is created or changed. *)
Theorem fetch_failures_write_nothing (a : Artifact.t) (w : World) (u : string) :
  fs w !! destination a w = None →
  fetch_url a w = Some u →
  (∀ e, network w u (ssl_verify (Artifact_class w)) = Raise e →
        ∃ a' w', Artifact.fetch (a, w) = (Raise e, (a', w'))
                 ∧ fs w' = fs w
                 ∧ trace w' = (trace w ++ [HttpGet u (ssl_verify (Artifact_class w))])%list)
  ∧ (∀ body, network w u (ssl_verify (Artifact_class w)) = Ok (Response 200 body) →
             parent_exists w (destination a w) = false →
             ∃ a' w', Artifact.fetch (a, w) = (Raise (OSError (destination a w)), (a', w'))
                      ∧ fs w' = fs w
                      ∧ trace w' = (trace w ++ [HttpGet u (ssl_verify (Artifact_class w))])%list).
Proof.
  intros Habsent Hurl. unfold fetch_url in Hurl. split.
  - intros e Hnet. rewrite fetch_after_generate_url. cbv zeta.
    rewrite bool_decide_eq_false_2 by (rewrite Habsent; by intros [? ?]).
    rewrite Hurl, Hnet. by do 2 eexists.
  - intros body Hnet Hparent. rewrite fetch_after_generate_url. cbv zeta.
    rewrite bool_decide_eq_false_2 by (rewrite Habsent; by intros [? ?]).
    rewrite Hurl, Hnet.
    rewrite bool_decide_eq_false_2 by (cbn; intros H; by apply H).
    rewrite store_run. cbn [fs log]. rewrite Habsent.
    change (parent_exists (log ?e w) ?p) with (parent_exists w p). rewrite Hparent.
    by do 2 eexists.
Qed.

Lemma fetch_failures_write_nothing_witness :
  (∃ a' w', Artifact.fetch (demo_artifact, offline_world {[ "out" := Dir ]})
            = (Raise (RequestException "http://host/a.tgz"), (a', w'))
            ∧ fs w' = {[ "out" := Dir ]}
            ∧ trace w' = [HttpGet "http://host/a.tgz" true])
  ∧ (∃ a' w', Artifact.fetch (demo_artifact, demo_world ∅ ∅ 200 one_byte true)
              = (Raise (OSError "out/a.tgz"), (a', w'))
              ∧ fs w' = ∅
              ∧ trace w' = [HttpGet "http://host/a.tgz" true]).
Proof.
  split.
  - exact (proj1 (fetch_failures_write_nothing demo_artifact
                    (offline_world {[ "out" := Dir ]}) "http://host/a.tgz"
                    eq_refl eq_refl)
             (RequestException "http://host/a.tgz") eq_refl).
  - exact (proj2 (fetch_failures_write_nothing demo_artifact
                    (demo_world ∅ ∅ 200 one_byte true) "http://host/a.tgz"
                    eq_refl eq_refl)
             one_byte eq_refl eq_refl).
Defined.

(** ** Verifying *)

(** X6. [verify] only reads: whatever its outcome, the artifact, the
    files and the environment are as before, and the only thing recorded
    is one checksum computation for each of the first few declared
    checksums, in order. When it returns it returns [True]. *)
Theorem verify_reads_only (hashlib : string → option (bytes → string))
    (a : Artifact.t) (w : World) :
  ∃ r w' n,
    Artifact.verify hashlib (a, w) = (r, (a, w'))
    ∧ fs w' = fs w ∧ environ w' = environ w
    ∧ Artifact_class w' = Artifact_class w
    ∧ trace w' = (trace w ++ checked a (take n (Artifact.sums a)))%list
    ∧ ∀ b, r = Ok b → b = true.
Proof.
  rewrite verify_run. destruct (check_integrity (Artifact_class w)).
  - destruct (verify_loop_effects hashlib a (Artifact.sums a) w) as (n & r & ->).
    destruct r as [[]|e].
    + exists (Ok true), (logs (checked a (take n (Artifact.sums a))) w), n.
      repeat split. by intros b [= <-].
    + exists (Raise e), (logs (checked a (take n (Artifact.sums a))) w), n.
      repeat split. intros b. discriminate.
  - exists (Ok true), w, 0%nat. rewrite take_0. cbn [checked map].
    rewrite app_nil_r. repeat split. by intros b [= <-].
Qed.

(** X7. Verifying an artifact whose file is not there: with no checksum
    declared [verify] returns [True] all the same; with a checksum
    declared it fails at the first one with the error of opening the
    file, not with [DogenError]. *)
Theorem verify_missing_file (hashlib : string → option (bytes → string))
    (a : Artifact.t) (w : World) :
  check_integrity (Artifact_class w) = true →
  fs w !! Artifact.filename a = None →
  (Artifact.sums a = [] → Artifact.verify hashlib (a, w) = (Ok true, (a, w)))
  ∧ (∀ alg chk rest hexdigest,
       Artifact.sums a = (alg, chk) :: rest →
       hashlib alg = Some hexdigest →
       Artifact.verify hashlib (a, w)
       = (Raise (OSError (Artifact.filename a)),
          (a, logs [CheckSum alg (Artifact.filename a)] w))).
Proof.
  intros Hon Hfile. rewrite verify_run, Hon. split.
  - intros ->. reflexivity.
  - intros alg chk rest hexdigest -> Hhash.
    cbn [for_each]. unfold bind. unfold check_each at 1. cbv beta iota.
    by rewrite check_sum_run, Hhash, Hfile.
Qed.

Lemma verify_missing_file_witness :
  Artifact.verify toy_hashlib (bare_artifact, demo_world ∅ ∅ 200 [] true)
  = (Ok true, (bare_artifact, demo_world ∅ ∅ 200 [] true))
  ∧ Artifact.verify toy_hashlib (demo_artifact, demo_world ∅ ∅ 200 [] true)
    = (Raise (OSError "out/a.tgz"),
       (demo_artifact, logs [CheckSum "md5" "out/a.tgz"] (demo_world ∅ ∅ 200 [] true))).
Proof.
  split.
  - exact (proj1 (verify_missing_file toy_hashlib bare_artifact
                    (demo_world ∅ ∅ 200 [] true) eq_refl eq_refl) eq_refl).
  - exact (proj2 (verify_missing_file toy_hashlib demo_artifact
                    (demo_world ∅ ∅ 200 [] true) eq_refl eq_refl)
             "md5" "D41D" [] _ eq_refl eq_refl).
Defined.

Lemma ascii_lower_idempotent (c : ascii) : ascii_lower (ascii_lower c) = ascii_lower c.
Proof. destruct c as [[] [] [] [] [] [] [] []]; reflexivity. Qed.

Lemma lower_idempotent (s : string) : lower (lower s) = lower s.
Proof.
  induction s as [|c s IH]; [reflexivity|].
  cbn [lower]. by rewrite ascii_lower_idempotent, IH.
Qed.

Lemma check_loop_ignores_case (hashlib : string → option (bytes → string))
    (a1 a2 : Artifact.t) (sums : dict) (w : World) :
  Artifact.filename a2 = Artifact.filename a1 →
  is_ok (fst (for_each (lower_digests sums) (check_each hashlib) (a2, w)))
  = is_ok (fst (for_each sums (check_each hashlib) (a1, w))).
Proof.
  intros Hfile. revert w. induction sums as [|[alg chk] sums IH]; intros w; [reflexivity|].
  cbn [lower_digests map for_each fst snd]. unfold bind.
  unfold check_each at 1 3. cbv beta iota.
  rewrite !check_sum_run, Hfile, lower_idempotent.
  destruct (hashlib alg) as [hexdigest|]; [|reflexivity].
  destruct (fs w !! Artifact.filename a1) as [[content|]|]; try reflexivity.
  destruct (String.eqb _ _); [apply IH | reflexivity].
Qed.

(** X8. Whether [verify] succeeds does not depend on the letter case in
    which the digests were declared: with every declared digest put in
    lower case, it succeeds in exactly the same worlds. *)
Theorem verify_ignores_declared_case (hashlib : string → option (bytes → string))
    (a : Artifact.t) (w : World) :
  is_ok (fst (Artifact.verify hashlib (Artifact.set_sums lower_digests a, w)))
  = is_ok (fst (Artifact.verify hashlib (a, w))).
Proof.
  rewrite !verify_run. cbn [Artifact.sums Artifact.set_sums].
  destruct (check_integrity (Artifact_class w)); [|reflexivity].
  pose proof (check_loop_ignores_case hashlib a (Artifact.set_sums lower_digests a)
                (Artifact.sums a) w eq_refl) as Hloop.
  destruct (for_each (lower_digests _) _ _) as [[[]|e1] s1],
           (for_each (Artifact.sums a) _ _) as [[[]|e2] s2]; exact Hloop.
Qed.




(** ** Cleaning up *)

Lemma under_self (d : string) : os.under d d = true.
Proof. unfold os.under. by rewrite String.eqb_refl. Qed.

Lemma if_exists_rmtree_absent (d : string) (w : World) :
  fs w !! d = None → if_exists_rmtree d w = (Ok tt, w).
Proof. intros Hd. rewrite if_exists_rmtree_run, Hd. unfold sweep. by rewrite Hd. Qed.

(** The three directories after they were swept. *)
Lemma swept_three_gone (d1 d2 d3 : string) (w : World) :
  os.under d1 d2 = false → os.under d1 d3 = false → os.under d2 d3 = false →
  os.under d2 d1 = false → os.under d3 d1 = false → os.under d3 d2 = false →
  absent_or_dir (fs w !! d1) → absent_or_dir (fs w !! d2) →
  absent_or_dir (fs w !! d3) →
  let w' := sweep d3 (sweep d2 (sweep d1 w)) in
  fs w' !! d1 = None ∧ fs w' !! d2 = None ∧ fs w' !! d3 = None.
Proof.
  intros H12 H13 H23 H21 H31 H32 A1 A2 A3 w'.
  destruct (sweep_three d1 d2 d3 H12 H13 H23 w A1 A2 A3) as [_ Hlookup].
  subst w'. rewrite !Hlookup. cbn [existsb].
  rewrite !under_self, H12, H13, H23, H21, H31, H32, !andb_true_r, !andb_false_r, !orb_false_r.
  cbn [orb].
  repeat split.
  - by destruct A1 as [-> | ->].
  - by destruct A2 as [-> | ->].
  - by destruct A3 as [-> | ->].
Qed.

(** X10. Cleaning twice is cleaning once: when [cleanup] succeeded, a
    second [cleanup] of the same target succeeds too and changes
    nothing, not even removing a directory. In particular [cleanup] of a
    target that holds none of the three directories is a no-op. *)
Theorem cleanup_idempotent (target : string) (w w' : World) :
  sweepable target w →
  cleanup target w = (Ok tt, w') →
  cleanup target w' = (Ok tt, w').
Proof.
  unfold sweepable.
  change (cleanup target ?x) with (for_each (dirty_dirs target) if_exists_rmtree x).
  rewrite dirty_dirs_paths, !Forall_cons. intros (A1 & A2 & A3 & _) Hrun.
  set (b := slashed target) in *.
  destruct (sweep_three (b +:+ "image/modules") (b +:+ "image/repos") (b +:+ "repo")
              (under_append b "image/modules" "image/repos")
              (under_append b "image/modules" "repo")
              (under_append b "image/repos" "repo") w A1 A2 A3) as [Hfirst _].
  rewrite Hfirst in Hrun. injection Hrun as <-.
  destruct (swept_three_gone (b +:+ "image/modules") (b +:+ "image/repos") (b +:+ "repo") w
              (under_append b "image/modules" "image/repos")
              (under_append b "image/modules" "repo")
              (under_append b "image/repos" "repo")
              (under_append b "image/repos" "image/modules")
              (under_append b "repo" "image/modules")
              (under_append b "repo" "image/repos") A1 A2 A3) as (G1 & G2 & G3).
  set (w' := sweep _ (sweep _ (sweep _ w))) in *.
  cbn [for_each]. unfold bind, ret.
  rewrite (if_exists_rmtree_absent _ w' G1). cbv beta iota.
  rewrite (if_exists_rmtree_absent _ w' G2). cbv beta iota.
  by rewrite (if_exists_rmtree_absent _ w' G3).
Qed.

Lemma cleanup_idempotent_witness :
  cleanup "out" (snd (cleanup "out" (demo_world dirty_files ∅ 200 [] true)))
  = (Ok tt, snd (cleanup "out" (demo_world dirty_files ∅ 200 [] true))).
Proof.
  apply (cleanup_idempotent "out" (demo_world dirty_files ∅ 200 [] true)).
  - repeat constructor; right; reflexivity.
  - vm_compute. reflexivity.
Defined.

Lemma dirty_dirs_each (target : string) :
  join target ["image"; "modules"] = slashed target +:+ "image/modules"
  ∧ join target ["image"; "repos"] = slashed target +:+ "image/repos"
  ∧ join target ["repo"] = slashed target +:+ "repo".
Proof.
  pose proof (dirty_dirs_paths target) as Hpaths.
  unfold dirty_dirs, join in *. cbn [foldl] in *.
  by injection Hpaths as -> -> ->.
Qed.

(** X11. A regular file where one of the three directories is due makes
    [cleanup] fail, and what came before it in the list is already gone:
    with [target/image/modules] a file nothing is removed; with
    [target/repo] a file, the two image directories are removed (if
    there) before the error is raised, and the file stays. *)
Theorem cleanup_stops_at_file (target : string) (w : World) (content : bytes) :
  (fs w !! join target ["image"; "modules"] = Some (File content) →
   cleanup target w = (Raise (OSError (join target ["image"; "modules"])), w))
  ∧ (absent_or_dir (fs w !! join target ["image"; "modules"]) →
     absent_or_dir (fs w !! join target ["image"; "repos"]) →
     fs w !! join target ["repo"] = Some (File content) →
     ∃ w', cleanup target w = (Raise (OSError (join target ["repo"])), w')
           ∧ fs w' !! join target ["image"; "modules"] = None
           ∧ fs w' !! join target ["image"; "repos"] = None
           ∧ fs w' !! join target ["repo"] = Some (File content)).
Proof.
  change (cleanup target w) with (for_each (dirty_dirs target) if_exists_rmtree w).
  rewrite dirty_dirs_paths.
  destruct (dirty_dirs_each target) as (-> & -> & ->).
  set (b := slashed target).
  pose proof (under_append b "image/modules" "image/repos") as H12.
  pose proof (under_append b "image/modules" "repo") as H13.
  pose proof (under_append b "image/repos" "repo") as H23.
  pose proof (under_append b "image/repos" "image/modules") as H21.
  change (os.under "image/modules" "image/repos") with false in H12.
  change (os.under "image/modules" "repo") with false in H13.
  change (os.under "image/repos" "repo") with false in H23.
  change (os.under "image/repos" "image/modules") with false in H21.
  split.
  - intros Hfile. cbn [for_each]. unfold bind. by rewrite if_exists_rmtree_run, Hfile.
  - intros A1 A2 Hfile.
    assert (E2 : fs (sweep (b +:+ "image/modules") w) !! (b +:+ "image/repos")
                 = fs w !! (b +:+ "image/repos")).
    { by rewrite sweep_lookup, H12, andb_false_r. }
    assert (E3 : fs (sweep (b +:+ "image/repos") (sweep (b +:+ "image/modules") w))
                 !! (b +:+ "repo") = Some (File content)).
    { by rewrite !sweep_lookup, H23, H13, !andb_false_r. }
    eexists. cbn [for_each]. unfold bind.
    rewrite (if_exists_rmtree_ok _ w A1). cbv beta iota.
    rewrite (if_exists_rmtree_ok _ (sweep _ w)) by (by rewrite E2). cbv beta iota.
    rewrite if_exists_rmtree_run, E3.
    split; [reflexivity | split; [|split; [|exact E3]]].
    + rewrite sweep_lookup, E2, H21, andb_false_r, sweep_lookup, under_self, andb_true_r.
      by destruct A1 as [-> | ->].
    + rewrite sweep_lookup, E2, under_self, andb_true_r.
      destruct A2 as [HA2 | HA2]; rewrite HA2; reflexivity.
Qed.

Lemma cleanup_stops_at_file_witness :
  ∃ w', cleanup "out" (demo_world blocked_files ∅ 200 [] true)
        = (Raise (OSError "out/repo"), w')
        ∧ fs w' !! "out/image/modules" = None
        ∧ fs w' !! "out/image/repos" = None
        ∧ fs w' !! "out/repo" = Some (File one_byte).
Proof.
  apply (proj2 (cleanup_stops_at_file "out" (demo_world blocked_files ∅ 200 [] true)
                  one_byte)).
  - right. reflexivity.
  - left. reflexivity.
  - reflexivity.
Defined.

Lemma prefix_has_sep (s p : string) :
  String.prefix s p = true → has_sep s = true → has_sep p = true.
Proof.
  revert s. induction p as [|c p IH]; intros [|c' s] Hprefix Hsep; try discriminate.
  cbn [String.prefix] in Hprefix. destruct (ascii_dec c' c) as [->|]; [|discriminate].
  cbn [has_sep] in *. destruct (Ascii.eqb c "/"); [reflexivity|].
  cbn [orb] in *. by apply (IH s).
Qed.

Lemma has_sep_append_sep (d : string) : has_sep (d +:+ sep) = true.
Proof.
  induction d as [|c d IH]; [reflexivity|].
  rewrite append_cons. cbn [has_sep]. rewrite IH. apply orb_true_r.
Qed.

(** A path without a slash lies below no directory and is only the
    directory of its own name. *)
Lemma no_sep_under (d p : string) :
  has_sep p = false → p ≠ d → os.under d p = false.
Proof.
  intros Hsep Hne. unfold os.under.
  apply String.eqb_neq in Hne. rewrite Hne. cbn [orb].
  destruct (String.prefix (d +:+ sep) p) eqn:Hprefix; [|reflexivity].
  apply prefix_has_sep in Hprefix; [congruence | apply has_sep_append_sep].
Qed.

Lemma no_sep_relative (name : string) :
  has_sep name = false → startswith name sep = false.
Proof.
  destruct name as [|c name]; [reflexivity|]. cbn [has_sep].
  intros [Hc _]%orb_false_iff. unfold startswith, sep. cbn [String.prefix].
  destruct (ascii_dec "/" c) as [<-|]; [discriminate | reflexivity].
Qed.

(** X12. [cleanup] never touches what else lies directly in the target
    or in its [image] directory: an entry [target/name] other than
    [repo], and an entry [target/image/name] other than [modules] and
    [repos], is after [cleanup] what it was before, whether [cleanup]
    succeeded or not. *)
Theorem cleanup_keeps_other_entries (target : string) (w : World) (name : string) :
  has_sep name = false →
  (name ≠ "repo" →
   fs (snd (cleanup target w)) !! join target [name] = fs w !! join target [name])
  ∧ (name ≠ "modules" → name ≠ "repos" →
     fs (snd (cleanup target w)) !! join target ["image"; name]
     = fs w !! join target ["image"; name]).
Proof.
  intros Hsep.
  change (cleanup target w) with (for_each (dirty_dirs target) if_exists_rmtree w).
  assert (Hrel := no_sep_relative name Hsep).
  split.
  - intros Hrepo. apply sweeping_frame. rewrite dirty_dirs_paths.
    unfold join. cbn [foldl]. rewrite join2_name by assumption.
    rewrite !Forall_cons, !under_append.
    split; [|split; [|split; [|constructor]]]; apply no_sep_under; try assumption.
    all: intros ->; discriminate.
  - intros Hmodules Hrepos. apply sweeping_frame. rewrite dirty_dirs_paths.
    unfold join. cbn [foldl].
    rewrite (join2_name target) by reflexivity.
    rewrite join2_name by assumption.
    rewrite slashed_append by done. rewrite !append_assoc.
    change ("image" +:+ sep +:+ name) with ("image/" +:+ name).
    rewrite !Forall_cons, !under_append.
    split; [|split; [|split; [reflexivity | constructor]]].
    + change "image/modules" with ("image/" +:+ "modules").
      rewrite under_append. by apply no_sep_under.
    + change "image/repos" with ("image/" +:+ "repos").
      rewrite under_append. by apply no_sep_under.
Qed.

Lemma cleanup_keeps_other_entries_witness :
  fs (snd (cleanup "out" (demo_world dirty_files ∅ 200 [] true))) !! "out/Dockerfile"
  = Some (File one_byte)
  ∧ fs (snd (cleanup "out" (demo_world dirty_files ∅ 200 [] true))) !! "out/image/modulesX"
    = Some (File []).
Proof.
  split.
  - exact (proj1 (cleanup_keeps_other_entries "out"
                    (demo_world dirty_files ∅ 200 [] true) "Dockerfile" eq_refl)
             ltac:(discriminate)).
  - exact (proj2 (cleanup_keeps_other_entries "out"
                    (demo_world dirty_files ∅ 200 [] true) "modulesX" eq_refl)
             ltac:(discriminate) ltac:(discriminate)).
Defined.

(** ** Loading a descriptor *)

Section loading_more.

Variable yaml : Type.
Variable yaml_safe_load : bytes → result yaml.
Variable core : Type.
Variable Core : yaml → yaml → result core.
Variable validate : core → result yaml.
Variable __file__ : string.

(** [load_descriptor], one decision after the other. *)
Lemma load_descriptor_run (descriptor_path schema_type : string) (w : World) :
  load_descriptor yaml yaml_safe_load core Core validate __file__
    descriptor_path schema_type w
  = (match fs w !! schema_path_of __file__ schema_type with
     | None => Raise (DogenError ("Cannot locate schema for " +:+ schema_type +:+ ".") None)
     | Some Dir => Raise (OSError (schema_path_of __file__ schema_type))
     | Some (File schema_text) =>
         match yaml_safe_load schema_text with
         | Raise e => Raise e
         | Ok schema =>
             match fs w !! descriptor_path with
             | None => Raise (DogenError "Cannot find provided descriptor file" None)
             | Some Dir => Raise (OSError descriptor_path)
             | Some (File text) =>
                 match yaml_safe_load text with
                 | Raise e => Raise e
                 | Ok descriptor =>
                     match Core descriptor schema with
                     | Raise e => Raise e
                     | Ok c =>
                         match validate c with
                         | Ok valid => Ok valid
                         | Raise ex => Raise (DogenError "Cannot validate schema" (Some ex))
                         end
                     end
                 end
             end
         end
     end, w).
Proof.
  unfold load_descriptor, schema_path_of, os.exists_, os.read_file. step.
  destruct (fs w !! join (dirname __file__) ["schema"; schema_type +:+ "_schema.yaml"])
    as [[schema_text|]|] eqn:Hschema; [| |reflexivity];
    change (bool_decide (is_Some (Some ?n))) with true;
    cbv beta iota delta [negb]; rewrite Hschema; cbv beta iota; [|reflexivity].
  destruct (yaml_safe_load schema_text) as [schema|e]; [|reflexivity].
  destruct (fs w !! descriptor_path) as [[text|]|] eqn:Hdescriptor; [| |reflexivity];
    change (bool_decide (is_Some (Some ?n))) with true;
    cbv beta iota delta [negb]; rewrite Hdescriptor; cbv beta iota; [|reflexivity].
  destruct (yaml_safe_load text) as [descriptor|e]; [|reflexivity].
  destruct (Core descriptor schema) as [c|e]; [|reflexivity].
  by destruct (validate c).
Qed.

(** X13. [load_descriptor] only reads: however it ends, the world (files,
    environment, recorded effects) is exactly as before. *)
Theorem load_descriptor_reads_only (descriptor_path schema_type : string) (w : World) :
  snd (load_descriptor yaml yaml_safe_load core Core validate __file__
         descriptor_path schema_type w) = w.
Proof. by rewrite load_descriptor_run. Qed.

(** X14. Only what [validate] raises is wrapped. With the schema file in
    place, an error of parsing the schema reaches the caller as it is,
    and before the descriptor is even looked for; with the schema parsed
    and the descriptor file in place, so do an error of parsing the
    descriptor and an error of setting up the validator. *)
Theorem load_descriptor_unwrapped_errors (descriptor_path schema_type : string)
    (w : World) (schema_text : bytes) :
  fs w !! schema_path_of __file__ schema_type = Some (File schema_text) →
  (∀ e, yaml_safe_load schema_text = Raise e →
        load_descriptor yaml yaml_safe_load core Core validate __file__
          descriptor_path schema_type w = (Raise e, w))
  ∧ (∀ schema text,
       yaml_safe_load schema_text = Ok schema →
       fs w !! descriptor_path = Some (File text) →
       (∀ e, yaml_safe_load text = Raise e →
             load_descriptor yaml yaml_safe_load core Core validate __file__
               descriptor_path schema_type w = (Raise e, w))
       ∧ (∀ descriptor e,
            yaml_safe_load text = Ok descriptor →
            Core descriptor schema = Raise e →
            load_descriptor yaml yaml_safe_load core Core validate __file__
              descriptor_path schema_type w = (Raise e, w))).
Proof.
  intros Hschema. rewrite load_descriptor_run, Hschema. split.
  - by intros e ->.
  - intros schema text -> ->. split.
    + by intros e ->.
    + by intros descriptor e -> ->.
Qed.

End loading_more.

Lemma load_descriptor_unwrapped_errors_witness :
  let w := demo_world picky_files ∅ 200 [] true in
  let load := load_descriptor bytes picky_safe_load (bytes * bytes) picky_Core
                toy_validate toy_module in
  load "absent.yaml" "module" w = (Raise (YAMLError "not a document"), w)
  ∧ load "bad.yaml" "image" w = (Raise (YAMLError "not a document"), w)
  ∧ load "empty.yaml" "image" w
    = (Raise (ValidatorError "No source file/data was loaded"), w).
Proof.
  intros w load.
  destruct (load_descriptor_unwrapped_errors bytes picky_safe_load (bytes * bytes)
              picky_Core toy_validate toy_module "absent.yaml" "module" w
              [Byte.x00] eq_refl) as [Hschema _].
  destruct (load_descriptor_unwrapped_errors bytes picky_safe_load (bytes * bytes)
              picky_Core toy_validate toy_module "bad.yaml" "image" w
              one_byte eq_refl) as [_ Hbad].
  destruct (load_descriptor_unwrapped_errors bytes picky_safe_load (bytes * bytes)
              picky_Core toy_validate toy_module "empty.yaml" "image" w
              one_byte eq_refl) as [_ Hempty].
  split; [exact (Hschema _ eq_refl) | split].
  - exact (proj1 (Hbad one_byte [Byte.x00] eq_refl eq_refl) _ eq_refl).
  - exact (proj2 (Hempty one_byte [] eq_refl eq_refl) [] _ eq_refl eq_refl).
Defined.

(** ** Paths *)

Lemma endswith_refl (s : string) : endswith s s = true.
Proof. destruct s; cbn [endswith]; by rewrite String.eqb_refl. Qed.

Lemma endswith_append_self (s p : string) : endswith (s +:+ p) p = true.
Proof.
  induction s as [|c s IH]; [apply endswith_refl|].
  rewrite append_cons. cbn [endswith]. rewrite IH. by destruct (String.eqb _ _).
Qed.

Lemma slashed_cases (d : string) : slashed d = "" ∨ endswith (slashed d) sep = true.
Proof.
  unfold slashed. destruct (String.eqb_spec d "") as [->|_]; [by left|].
  cbn [orb]. destruct (endswith d sep) eqn:Hend; right;
    [assumption | apply endswith_append_self].
Qed.

Lemma has_sep_append (s t : string) : has_sep (s +:+ t) = (has_sep s || has_sep t)%bool.
Proof.
  induction s as [|c s IH]; [reflexivity|].
  rewrite append_cons. cbn [has_sep]. by rewrite IH, orb_assoc.
Qed.

Lemma endswith_sep_has_sep (s : string) : endswith s sep = true → has_sep s = true.
Proof.
  induction s as [|c s IH]; [discriminate|]. cbn [endswith has_sep].
  destruct (String.eqb_spec (String c s) sep) as [[= Hc Hs]|_];
    [by rewrite Hc|].
  intros Hend. rewrite (IH Hend). apply orb_true_r.
Qed.

Lemma dir_prefix_tail (c : ascii) (pre : string) :
  dir_prefix (String c pre) → pre ≠ "" → dir_prefix pre.
Proof.
  intros [Hnil | Hend] Hpre; [discriminate|]. right. cbn [endswith] in Hend.
  destruct (String.eqb_spec (String c pre) sep) as [[= _ Hnil]|_]; [by destruct Hpre | assumption].
Qed.

Lemma dir_prefix_single (c : ascii) : dir_prefix (String c "") → c = "/"%char.
Proof.
  intros [Hnil | Hend]; [discriminate|]. cbn [endswith] in Hend.
  destruct (String.eqb_spec (String c "") sep) as [[= Hc]|_]; [exact Hc | discriminate].
Qed.

Lemma basename_prefixed (pre name : string) :
  dir_prefix pre → has_sep name = false →
  posixpath.basename (pre +:+ name) = name.
Proof.
  intros Hpre Hname. induction pre as [|c pre IH].
  - destruct name as [|c name]; [reflexivity|]. cbn [has_sep] in Hname.
    apply orb_false_iff in Hname as [Hc Hname].
    change ("" +:+ String c name) with (String c name).
    cbn [posixpath.basename]. by rewrite Hname, Hc.
  - rewrite append_cons. cbn [posixpath.basename].
    destruct pre as [|c' pre].
    + apply dir_prefix_single in Hpre as ->.
      change ("" +:+ name) with name. by rewrite Hname.
    + assert (Hpre' : dir_prefix (String c' pre)) by (by apply dir_prefix_tail in Hpre).
      rewrite has_sep_append.
      destruct Hpre' as [|Hend]; [discriminate|].
      rewrite (endswith_sep_has_sep _ Hend). cbn [orb]. apply IH. by right.
Qed.

Lemma head_of_prefixed (pre name : string) :
  dir_prefix pre → has_sep name = false → head_of (pre +:+ name) = pre.
Proof.
  intros Hpre Hname. induction pre as [|c pre IH].
  - destruct name as [|c name]; [reflexivity|]. cbn [has_sep] in Hname.
    apply orb_false_iff in Hname as [Hc Hname].
    change ("" +:+ String c name) with (String c name).
    cbn [head_of]. by rewrite Hname, Hc.
  - rewrite append_cons. cbn [head_of].
    destruct pre as [|c' pre].
    + apply dir_prefix_single in Hpre as ->.
      change ("" +:+ name) with name. by rewrite Hname.
    + assert (Hpre' : dir_prefix (String c' pre)) by (by apply dir_prefix_tail in Hpre).
      rewrite has_sep_append.
      destruct Hpre' as [|Hend]; [discriminate|].
      rewrite (endswith_sep_has_sep _ Hend). cbn [orb]. f_equal. apply IH. by right.
Qed.

Lemma plain_dir_slashed (d : string) : plain_dir d → slashed d = d +:+ sep.
Proof.
  intros [Hne Hend]. unfold slashed. rewrite Hend.
  by destruct (String.eqb_spec d "").
Qed.

Lemma endswith_cons_false (c : ascii) (s : string) :
  endswith (String c s) sep = false → String c s ≠ sep ∧ endswith s sep = false.
Proof.
  cbn [endswith]. destruct (String.eqb_spec (String c s) sep); [discriminate | auto].
Qed.

Lemma plain_dir_not_all_sep (d : string) : plain_dir d → all_sep d = false.
Proof.
  intros [Hne Hend]. induction d as [|c d IH]; [by destruct Hne|].
  apply endswith_cons_false in Hend as [Hsingle Hend]. cbn [all_sep].
  destruct d as [|c' d].
  - destruct (Ascii.eqb_spec c "/") as [->|_]; [by destruct Hsingle | reflexivity].
  - rewrite IH by (auto || discriminate). apply andb_false_r.
Qed.

Lemma all_sep_append (s t : string) : all_sep (s +:+ t) = (all_sep s && all_sep t)%bool.
Proof.
  induction s as [|c s IH]; [reflexivity|].
  rewrite append_cons. cbn [all_sep]. by rewrite IH, andb_assoc.
Qed.

Lemma rstrip_sep_slashed (d : string) :
  endswith d sep = false → rstrip_sep (d +:+ sep) = d.
Proof.
  induction d as [|c d IH]; intros Hend; [reflexivity|].
  assert (Hall : all_sep (String c d) = false).
  { apply plain_dir_not_all_sep. split; [discriminate | exact Hend]. }
  apply endswith_cons_false in Hend as [_ Hend].
  rewrite append_cons. cbn [rstrip_sep].
  change (String c (d +:+ sep)) with (String c d +:+ sep).
  rewrite all_sep_append, Hall. cbn [andb]. rewrite (IH Hend). reflexivity.
Qed.

(** The directory of [d/name] is [d]. *)
Lemma dirname_join_name (d name : string) :
  plain_dir d → has_sep name = false → dirname (join d [name]) = d.
Proof.
  intros Hd Hname. unfold join. cbn [foldl].
  rewrite join2_name, (plain_dir_slashed d Hd) by (by apply no_sep_relative).
  unfold dirname. rewrite head_of_prefixed by (assumption || right; apply endswith_append_self).
  rewrite all_sep_append, (plain_dir_not_all_sep d Hd). cbn [andb].
  apply rstrip_sep_slashed, Hd.
Qed.

Lemma basename_join_name (d name : string) :
  has_sep name = false → posixpath.basename (join d [name]) = name.
Proof.
  intros Hname. unfold join. cbn [foldl].
  rewrite join2_name by (by apply no_sep_relative).
  apply basename_prefixed; [apply slashed_cases | assumption].
Qed.

Lemma join_name_inj (d1 d2 n1 n2 : string) :
  plain_dir d1 → plain_dir d2 → has_sep n1 = false → has_sep n2 = false →
  join d1 [n1] = join d2 [n2] → d1 = d2 ∧ n1 = n2.
Proof.
  intros Hd1 Hd2 Hn1 Hn2 Heq. split.
  - by rewrite <- (dirname_join_name d1 n1), <- (dirname_join_name d2 n2), Heq.
  - by rewrite <- (basename_join_name d1 n1), <- (basename_join_name d2 n2), Heq.
Qed.

Lemma prefix_append_self (s t : string) : String.prefix s (s +:+ t) = true.
Proof.
  induction s as [|c s IH]; [by destruct t|].
  rewrite append_cons. cbn [String.prefix]. by destruct (ascii_dec c c).
Qed.

Lemma join_name_under (d name : string) :
  plain_dir d → has_sep name = false → os.under d (join d [name]) = true.
Proof.
  intros Hd Hname. unfold join, os.under. cbn [foldl].
  rewrite join2_name, (plain_dir_slashed d Hd) by (by apply no_sep_relative).
  rewrite prefix_append_self. apply orb_true_r.
Qed.

Lemma join_name_plain (d name : string) :
  name ≠ "" → has_sep name = false → plain_dir (join d [name]).
Proof.
  intros Hne Hname. unfold join. cbn [foldl].
  rewrite join2_name by (by apply no_sep_relative). split.
  - intros Hnil. by apply append_empty_inv in Hnil.
  - rewrite endswith_append by assumption.
    destruct (endswith name sep) eqn:Hend; [|reflexivity].
    apply endswith_sep_has_sep in Hend. congruence.
Qed.

(** ** Listing a directory *)

Lemma strip_prefix_spec (pre s name : string) :
  glob.strip_prefix pre s = Some name ↔ s = pre +:+ name.
Proof.
  revert s. induction pre as [|c pre IH]; intros s.
  - cbn [glob.strip_prefix]. change ("" +:+ name) with name. split; congruence.
  - rewrite append_cons. cbn [glob.strip_prefix]. destruct s as [|c' s].
    + split; discriminate.
    + destruct (Ascii.eqb_spec c c') as [->|Hne].
      * rewrite IH. split; congruence.
      * split; [discriminate | congruence].
Qed.

Lemma NoDup_omap {A B} (f : A → option B) (l : list A) :
  NoDup l →
  (∀ x y z, x ∈ l → y ∈ l → f x = Some z → f y = Some z → x = y) →
  NoDup (omap f l).
Proof.
  induction 1 as [|x l Hx Hl IH]; intros Hinj; [constructor|].
  cbn [omap list_omap]. destruct (f x) as [z|] eqn:Hfx.
  - constructor.
    + intros (y & Hy & Hfy)%list_elem_of_omap.
      apply Hx. by rewrite (Hinj x y z) by (rewrite ?elem_of_cons; auto).
    + apply IH. intros x' y' z' Hx' Hy'. apply Hinj; rewrite elem_of_cons; auto.
  - apply IH. intros x' y' z' Hx' Hy'. apply Hinj; rewrite elem_of_cons; auto.
Qed.

Lemma names_in_spec (dir name : string) (w : World) :
  name ∈ glob.names_in dir w
  ↔ name ≠ "" ∧ has_sep name = false ∧ is_Some (fs w !! (slashed dir +:+ name)).
Proof.
  unfold glob.names_in. rewrite list_elem_of_omap. split.
  - intros ([k v] & Hkv & Hname). cbn [fst] in Hname.
    apply elem_of_map_to_list in Hkv.
    destruct (glob.strip_prefix (slashed dir) k) as [n|] eqn:Hstrip; [|discriminate].
    apply strip_prefix_spec in Hstrip as ->.
    destruct (String.eqb_spec n "") as [|Hne]; [discriminate|].
    destruct (has_sep n) eqn:Hsep; [discriminate|].
    injection Hname as <-. eauto.
  - intros (Hne & Hsep & [v Hv]). exists (slashed dir +:+ name, v). split.
    + by apply elem_of_map_to_list.
    + cbn [fst]. rewrite (proj2 (strip_prefix_spec _ _ name) eq_refl), Hsep.
      by destruct (String.eqb_spec name "").
Qed.

Lemma names_in_NoDup (dir : string) (w : World) : NoDup (glob.names_in dir w).
Proof.
  apply NoDup_omap; [apply NoDup_map_to_list|].
  intros [k1 v1] [k2 v2] name H1%elem_of_map_to_list H2%elem_of_map_to_list.
  cbn [fst].
  destruct (glob.strip_prefix (slashed dir) k1) as [n1|] eqn:Hs1; [|discriminate].
  destruct (glob.strip_prefix (slashed dir) k2) as [n2|] eqn:Hs2; [|discriminate].
  apply strip_prefix_spec in Hs1 as ->. apply strip_prefix_spec in Hs2 as ->.
  destruct (negb (String.eqb n1 "") && negb (has_sep n1))%bool; [|discriminate].
  destruct (negb (String.eqb n2 "") && negb (has_sep n2))%bool; [|discriminate].
  intros [= ->] [= ->]. congruence.
Qed.

(** What [glob] finds for ["*.repo"] in a directory: the entries whose
    name has the ending and does not start with a dot, each once. *)
Lemma repo_names_spec (dir name : string) (w : World) :
  name ∈ repo_names dir w
  ↔ has_sep name = false ∧ glob.star_match ".repo" name = true
    ∧ is_Some (fs w !! (slashed dir +:+ name)).
Proof.
  unfold repo_names. rewrite list_elem_of_In, filter_In, <- list_elem_of_In, names_in_spec.
  split; [tauto|]. intros (Hsep & Hmatch & Hsome). repeat split; try assumption.
  intros ->. discriminate Hmatch.
Qed.

Lemma repo_names_NoDup (dir : string) (w : World) : NoDup (repo_names dir w).
Proof.
  unfold repo_names. apply NoDup_ListNoDup, List.NoDup_filter, NoDup_ListNoDup.
  apply names_in_NoDup.
Qed.

Lemma glob_star_run (d : string) (w : World) :
  plain_dir d → fs w !! d = Some Dir →
  glob.star (join d ["*.repo"]) ".repo" w
  = (Ok (map (λ name, join d [name]) (repo_names d w)), w).
Proof.
  intros Hd Hdir. unfold glob.star, gets.
  rewrite dirname_join_name by (assumption || reflexivity).
  rewrite Hdir. cbn [is_dir]. by rewrite orb_true_r.
Qed.

(** ** Making the target directory *)

Lemma mkdir_run (p : string) (w : World) :
  p ≠ "" → fs w !! p = None → parent_exists w p = true →
  os_mkdir p w = (Ok tt, set_fs <[p := Dir]> w).
Proof.
  intros Hne Hp Hparent. unfold os_mkdir, parent_exists in *. step.
  rewrite Hp, Hparent. by destruct (String.eqb_spec p "").
Qed.

Lemma mkdir_exists (p : string) (w : World) :
  is_Some (fs w !! p) → os_mkdir p w = (Raise (OSError p), w).
Proof. intros [n Hn]. unfold os_mkdir. step. by rewrite Hn. Qed.

(** With the parent in place, [makedirs] is [mkdir]. *)
Lemma makedirs_with_parent (p : string) (w : World) :
  posixpath.basename p ≠ "" → parent_exists w p = true →
  os_makedirs p w = os_mkdir p w.
Proof.
  intros Hbase Hparent. unfold os_makedirs.
  destruct (String.length p); [reflexivity|].
  cbn [os_makedirs_fuel]. apply String.eqb_neq in Hbase.
  unfold os.exists_. step. rewrite !Hbase. unfold parent_exists in Hparent.
  destruct (String.eqb (dirname p) ""); [reflexivity|]. cbn [orb negb andb] in *.
  destruct (fs w !! dirname p) as [[content|]|]; try discriminate.
  reflexivity.
Qed.

(** ** Copying *)

Lemma endswith_spec (s suffix : string) :
  endswith s suffix = true → ∃ r, s = r +:+ suffix.
Proof.
  induction s as [|c s IH]; cbn [endswith].
  - destruct (String.eqb_spec "" suffix) as [<-|]; [by exists "" | discriminate].
  - destruct (String.eqb_spec (String c s) suffix) as [<-|_]; [by exists ""|].
    intros [r ->]%IH. by exists (String c r).
Qed.

Lemma before_last_dot_repo (r : string) :
  posixpath.before_last_dot (r +:+ ".repo") = r.
Proof.
  induction r as [|c r IH]; [reflexivity|].
  rewrite append_cons. cbn [posixpath.before_last_dot].
  assert (Hdot : posixpath.has_dot (r +:+ ".repo") = true).
  { clear. induction r as [|c r IH]; [reflexivity|].
    rewrite append_cons. cbn [posixpath.has_dot]. rewrite IH. apply orb_true_r. }
  by rewrite Hdot, IH.
Qed.

(** The name under which a repository definition is reported: its file
    name without the ending. *)
Lemma splitext_repo (name : string) :
  glob.star_match ".repo" name = true →
  posixpath.splitext_root name +:+ ".repo" = name.
Proof.
  unfold glob.star_match. intros [Hend Hhidden]%andb_true_iff.
  apply endswith_spec in Hend as [r ->].
  unfold posixpath.splitext_root. rewrite before_last_dot_repo.
  destruct r as [|c r]; [vm_compute in Hhidden; discriminate Hhidden|].
  rewrite append_cons in Hhidden. unfold startswith in Hhidden.
  cbn [String.prefix] in Hhidden. cbn [posixpath.all_dots].
  destruct (ascii_dec "." c) as [<-|Hne];
    [destruct r; vm_compute in Hhidden; discriminate Hhidden|].
  destruct (Ascii.eqb_spec c "."); [congruence | reflexivity].
Qed.

Lemma join_name_neq_dir (d name : string) :
  name ≠ "" → has_sep name = false → join d [name] ≠ d.
Proof.
  intros Hne Hname Heq.
  assert (Hunder : posixpath.basename (join d [name]) = name)
    by (by apply basename_join_name).
  unfold join in *. cbn [foldl] in *.
  rewrite join2_name in Heq by (by apply no_sep_relative).
  destruct (slashed_cases d) as [Hnil | Hend].
  - rewrite Hnil in Heq. change ("" +:+ name) with name in Heq. subst name.
    unfold slashed in Hnil.
    destruct (String.eqb_spec d ""); [done|]. cbn [orb] in Hnil.
    destruct (endswith d sep); [done | by destruct d].
  - unfold slashed in *. destruct (String.eqb d "" || endswith d sep)%bool.
    + rewrite <- (append_empty_r d) in Heq at 2. by apply (inj (String.app d)) in Heq.
    + rewrite append_assoc in Heq. rewrite <- (append_empty_r d) in Heq at 2.
      apply (inj (String.app d)) in Heq. discriminate.
Qed.

Lemma copy2_into_dir (d t name : string) (w : World) (content : bytes) :
  plain_dir d → plain_dir t → d ≠ t → has_sep name = false →
  fs w !! t = Some Dir →
  fs w !! join d [name] = Some (File content) →
  fs w !! join t [name] = None →
  shutil.copy2 (join d [name]) t w = (Ok tt, with_file (join t [name]) content w).
Proof.
  intros Hd Ht Hdt Hname Htarget Hsrc Hdst.
  unfold shutil.copy2. unfold mbind, M_bind, bind, gets, id.
  rewrite Htarget. cbn [is_dir]. rewrite basename_join_name by assumption.
  destruct (String.eqb_spec (join d [name]) (join t [name])) as [Heq|_].
  { by apply join_name_inj in Heq as [? _]. }
  unfold os.read_file. unfold mbind, M_bind, bind, gets, id, ret. rewrite Hsrc.
  rewrite open_wb_run, Hdst. unfold parent_exists.
  rewrite dirname_join_name, Htarget by assumption. cbn [is_dir].
  rewrite orb_true_r. unfold modify, with_file, set_fs. cbn [fs].
  by rewrite insert_insert_eq.
Qed.

Section copying.

Variables d t : string.
Hypothesis d_plain : plain_dir d.
Hypothesis t_plain : plain_dir t.
Hypothesis d_not_t : d ≠ t.

(** The loop copies every file into the target directory under its own
    name and touches nothing else. *)
Lemma copy_loop (names acc : list string) (w : World) :
  NoDup names →
  Forall (λ n, has_sep n = false ∧ n ≠ "") names →
  fs w !! t = Some Dir →
  (∀ n, n ∈ names → ∃ content, fs w !! join d [n] = Some (File content)) →
  (∀ n, n ∈ names → fs w !! join t [n] = None) →
  ∃ w', copy_repo_files t (map (λ n, join d [n]) names) acc w
        = (Ok (acc ++ map posixpath.splitext_root names)%list, w')
        ∧ same_but_files w w'
        ∧ (∀ n, n ∈ names → fs w' !! join t [n] = fs w !! join d [n])
        ∧ (∀ p, (∀ n, n ∈ names → p ≠ join t [n]) → fs w' !! p = fs w !! p).
Proof.
  intros Hnodup. revert acc w.
  induction Hnodup as [|n names Hn Hnodup IH]; intros acc w Hnames Htarget Hsrc Hdst.
  - exists w. cbn [map copy_repo_files]. rewrite app_nil_r.
    repeat split. intros n Hn. by apply elem_of_nil in Hn.
  - apply Forall_cons in Hnames as [[Hsep Hne] Hnames].
    destruct (Hsrc n) as [content Hcontent]; [left|].
    cbn [map copy_repo_files]. unfold mbind, M_bind, bind.
    rewrite (copy2_into_dir d t n w content) by (auto; apply Hdst; left).
    rewrite basename_join_name by assumption.
    assert (Hother : ∀ n', n' ∈ names → join t [n'] ≠ join t [n]).
    { intros n' Hn' Heq. apply join_name_inj in Heq as [_ ->]; try assumption.
      - by apply Hn.
      - rewrite Forall_forall in Hnames. by apply Hnames. }
    assert (Hsources : ∀ n', n' ∈ names → join d [n'] ≠ join t [n]).
    { intros n' Hn' Heq. apply join_name_inj in Heq as [Heq _]; try assumption.
      - by apply d_not_t.
      - rewrite Forall_forall in Hnames. by apply Hnames. }
    destruct (IH (acc ++ [posixpath.splitext_root n])%list
                (with_file (join t [n]) content w) Hnames)
      as (w' & Hrun & Hsame & Hcopies & Hframe).
    + cbn [fs with_file set_fs]. rewrite lookup_insert_ne; [assumption|].
      by apply join_name_neq_dir.
    + intros n' Hn'. cbn [fs with_file set_fs].
      rewrite lookup_insert_ne by (apply not_eq_sym; by apply Hsources).
      apply Hsrc. by right.
    + intros n' Hn'. cbn [fs with_file set_fs].
      rewrite lookup_insert_ne by (apply not_eq_sym; by apply Hother).
      apply Hdst. by right.
    + exists w'. rewrite Hrun, <- app_assoc. cbn [map app].
      split; [reflexivity | split; [exact Hsame | split]].
      * intros n' [->|Hn']%elem_of_cons.
        -- rewrite Hframe by (intros n' Hn' Heq; by apply (Hother n' Hn')).
           cbn [fs with_file set_fs]. by rewrite lookup_insert_eq.
        -- rewrite (Hcopies n' Hn'). cbn [fs with_file set_fs].
           apply lookup_insert_ne, not_eq_sym. by apply Hsources.
      * intros p Hp. rewrite Hframe by (intros n' Hn'; apply Hp; by right).
        cbn [fs with_file set_fs]. apply lookup_insert_ne, not_eq_sym, Hp. left.
Qed.

End copying.

(** ** [prepare_external_repositories] *)

Lemma repo_names_plain (dir name : string) (w : World) :
  name ∈ repo_names dir w →
  has_sep name = false ∧ name ≠ "" ∧ glob.star_match ".repo" name = true
  ∧ is_Some (fs w !! join dir [name]).
Proof.
  intros (Hsep & Hmatch & Hsome)%repo_names_spec.
  repeat split; try assumption.
  - intros ->. discriminate Hmatch.
  - unfold join. cbn [foldl]. by rewrite join2_name by (by apply no_sep_relative).
Qed.

Lemma prepare_missing_dir (repo_files_dir image_dir : string) (w : World) :
  fs w !! repo_files_dir = None →
  prepare_external_repositories repo_files_dir image_dir w
  = (Raise (DogenError ("Directory '" +:+ repo_files_dir
                        +:+ "' with additional repository definitions doesn't exist!")
              None), w).
Proof.
  intros Hdir. unfold prepare_external_repositories, os.exists_. step.
  by rewrite Hdir.
Qed.

Lemma prepare_target_exists (repo_files_dir image_dir : string) (w : World) :
  is_Some (fs w !! repo_files_dir) →
  is_Some (fs w !! join image_dir ["repos"]) →
  parent_exists w (join image_dir ["repos"]) = true →
  prepare_external_repositories repo_files_dir image_dir w
  = (Raise (OSError (join image_dir ["repos"])), w).
Proof.
  intros Hdir Htarget Hparent.
  unfold prepare_external_repositories, os.exists_, glob.star. step.
  rewrite bool_decide_eq_true_2 by assumption. cbv beta iota delta [negb].
  rewrite makedirs_with_parent, mkdir_exists; try assumption; [reflexivity|].
  by rewrite basename_join_name.
Qed.

(** What a successful run does. *)
Lemma prepare_run (repo_files_dir image_dir : string) (w : World) :
  plain_dir repo_files_dir →
  fs w !! repo_files_dir = Some Dir →
  (∀ n, n ∈ repo_names repo_files_dir w → fs w !! join repo_files_dir [n] ≠ Some Dir) →
  parent_exists w (join image_dir ["repos"]) = true →
  (∀ p, os.under (join image_dir ["repos"]) p = true → fs w !! p = None) →
  ∃ w', prepare_external_repositories repo_files_dir image_dir w
        = (Ok (map posixpath.splitext_root (repo_names repo_files_dir w)), w')
        ∧ same_but_files w w'
        ∧ fs w' !! join image_dir ["repos"] = Some Dir
        ∧ (∀ n, n ∈ repo_names repo_files_dir w →
                fs w' !! join (join image_dir ["repos"]) [n]
                = fs w !! join repo_files_dir [n])
        ∧ (∀ p, p ≠ join image_dir ["repos"] →
                (∀ n, n ∈ repo_names repo_files_dir w →
                      p ≠ join (join image_dir ["repos"]) [n]) →
                fs w' !! p = fs w !! p).
Proof.
  intros Hd Hdir Hfiles Hparent Hempty.
  set (t := join image_dir ["repos"]) in *.
  assert (Ht : plain_dir t) by (by apply join_name_plain).
  assert (Habsent : fs w !! t = None) by apply Hempty, under_self.
  assert (Hdt : repo_files_dir ≠ t) by (intros ->; congruence).
  unfold prepare_external_repositories, os.exists_. unfold mbind, M_bind, bind, gets.
  rewrite bool_decide_eq_true_2 by (by rewrite Hdir). cbv beta iota delta [negb].
  rewrite (glob_star_run repo_files_dir w Hd Hdir). fold t.
  rewrite makedirs_with_parent, mkdir_run; try assumption.
  2: apply Ht.
  2: { subst t. by rewrite basename_join_name. }
  destruct (copy_loop repo_files_dir t Hd Ht Hdt (repo_names repo_files_dir w) []
              (set_fs <[t := Dir]> w)) as (w' & Hrun & Hsame & Hcopies & Hframe).
  - apply repo_names_NoDup.
  - apply Forall_forall. intros n Hn%repo_names_plain. tauto.
  - cbn [fs set_fs]. apply lookup_insert_eq.
  - intros n Hn. pose proof (repo_names_plain _ _ _ Hn) as (_ & _ & _ & [v Hv]).
    cbn [fs set_fs].
    rewrite lookup_insert_ne by (intros Heq; rewrite <- Heq in Hv; congruence).
    destruct v as [content|]; [eauto | by destruct (Hfiles n Hn)].
  - intros n Hn. pose proof (repo_names_plain _ _ _ Hn) as (Hsep & Hne & _).
    cbn [fs set_fs]. rewrite lookup_insert_ne by (apply not_eq_sym; by apply join_name_neq_dir).
    apply Hempty. by apply join_name_under.
  - exists w'. rewrite Hrun. cbn [app].
    split; [reflexivity | split; [exact Hsame | split; [|split]]].
    + rewrite Hframe; [cbn [fs set_fs]; apply lookup_insert_eq|].
      intros n (Hsep & Hne & _)%repo_names_plain Heq. symmetry in Heq.
      exact (join_name_neq_dir t n Hne Hsep Heq).
    + intros n Hn. rewrite (Hcopies n Hn). cbn [fs set_fs].
      apply lookup_insert_ne. intros Heq.
      pose proof (repo_names_plain _ _ _ Hn) as (_ & _ & _ & [v Hv]).
      rewrite <- Heq in Hv. congruence.
    + intros p Hp Hnames. rewrite (Hframe p Hnames). cbn [fs set_fs].
      by apply lookup_insert_ne, not_eq_sym.
Qed.

(** X15. With a directory of repository definitions (named without a
    wildcard and without a slash at the end) in which nothing called
    [*.repo] is itself a directory, and an image directory that exists
    and has nothing at or below [image_dir/repos] yet,
    [prepare_external_repositories] succeeds: it makes
    [image_dir/repos] and copies into it, under its own name and with its
    content, every entry of the directory whose name ends in [.repo] and
    does not start with a dot, and only those; it returns their names
    without the ending, and leaves everything outside [image_dir/repos]
    as it was. *)
Theorem prepare_copies_repo_files (repo_files_dir image_dir : string) (w : World) :
  plain_dir repo_files_dir →
  glob.has_magic repo_files_dir = false →
  fs w !! repo_files_dir = Some Dir →
  (∀ n, n ∈ repo_names repo_files_dir w → fs w !! join repo_files_dir [n] ≠ Some Dir) →
  parent_exists w (join image_dir ["repos"]) = true →
  (∀ p, os.under (join image_dir ["repos"]) p = true → fs w !! p = None) →
  ∃ added_repos w',
    prepare_external_repositories repo_files_dir image_dir w = (Ok added_repos, w')
    ∧ map (λ r, r +:+ ".repo") added_repos = repo_names repo_files_dir w
    ∧ (∀ n, n ∈ repo_names repo_files_dir w
            ↔ has_sep n = false ∧ glob.star_match ".repo" n = true
              ∧ is_Some (fs w !! join repo_files_dir [n]))
    ∧ same_but_files w w'
    ∧ fs w' !! join image_dir ["repos"] = Some Dir
    ∧ (∀ n, n ∈ repo_names repo_files_dir w →
            fs w' !! join (join image_dir ["repos"]) [n]
            = fs w !! join repo_files_dir [n])
    ∧ (∀ p, os.under (join image_dir ["repos"]) p = true → is_Some (fs w' !! p) →
            p = join image_dir ["repos"]
            ∨ ∃ n, n ∈ repo_names repo_files_dir w
                   ∧ p = join (join image_dir ["repos"]) [n])
    ∧ (∀ p, os.under (join image_dir ["repos"]) p = false → fs w' !! p = fs w !! p).
Proof.
  intros Hd _ Hdir Hfiles Hparent Hempty.
  destruct (prepare_run repo_files_dir image_dir w Hd Hdir Hfiles Hparent Hempty)
    as (w' & Hrun & Hsame & Htarget & Hcopies & Hframe).
  set (t := join image_dir ["repos"]) in *.
  assert (Ht : plain_dir t) by (by apply join_name_plain).
  exists (map posixpath.splitext_root (repo_names repo_files_dir w)), w'.
  split; [exact Hrun | split; [|split; [|split; [exact Hsame | split; [exact Htarget|
    split; [exact Hcopies | split]]]]]].
  - rewrite map_map. rewrite <- (map_id (repo_names repo_files_dir w)) at 2.
    apply map_ext_in. intros n Hn%list_elem_of_In%repo_names_plain.
    apply splitext_repo. tauto.
  - intros n. split.
    + intros Hn%repo_names_plain. tauto.
    + intros (Hsep & Hmatch & Hsome). apply repo_names_spec.
      repeat split; try assumption.
      unfold join in Hsome. cbn [foldl] in Hsome.
      by rewrite join2_name in Hsome by (by apply no_sep_relative).
  - intros p Hunder Hsome.
    destruct (decide (p = t)) as [->|Hpt]; [by left | right].
    destruct (decide (p ∈ map (λ n, join t [n]) (repo_names repo_files_dir w)))
      as [Hin|Hout].
    + apply list_elem_of_In, in_map_iff in Hin as (n & <- & Hn%list_elem_of_In). eauto.
    + rewrite Hframe, (Hempty p Hunder) in Hsome; [by destruct Hsome | assumption |].
      intros n Hn ->. apply Hout, list_elem_of_In, in_map_iff.
      exists n. by rewrite <- list_elem_of_In.
  - intros p Hunder. apply Hframe.
    + intros ->. by rewrite under_self in Hunder.
    + intros n Hn%repo_names_plain ->.
      rewrite join_name_under in Hunder by tauto. discriminate.
Qed.

(** Two facts about a world that can be settled by looking at each of
    its entries. *)
Lemma nothing_under (t : string) (w : World) :
  forallb (λ kv : string * node, negb (os.under t kv.1)) (map_to_list (fs w)) = true →
  ∀ p, os.under t p = true → fs w !! p = None.
Proof.
  intros Hall p Hunder. destruct (fs w !! p) as [v|] eqn:Hp; [|reflexivity].
  apply elem_of_map_to_list, list_elem_of_In in Hp.
  rewrite forallb_forall in Hall. specialize (Hall _ Hp). cbn [fst] in Hall.
  rewrite Hunder in Hall. discriminate.
Qed.

Lemma no_repo_directories (d : string) (w : World) :
  forallb (λ n, negb (is_dir (fs w !! join d [n]))) (repo_names d w) = true →
  ∀ n, n ∈ repo_names d w → fs w !! join d [n] ≠ Some Dir.
Proof.
  intros Hall n Hn%list_elem_of_In Hdir.
  rewrite forallb_forall in Hall. specialize (Hall _ Hn). by rewrite Hdir in Hall.
Qed.

Lemma prepare_copies_repo_files_witness :
  ∃ added_repos w',
    prepare_external_repositories "repos" "out/image" (demo_world repo_files ∅ 200 [] true)
    = (Ok added_repos, w')
    ∧ map (λ r, r +:+ ".repo") added_repos
      = repo_names "repos" (demo_world repo_files ∅ 200 [] true)
    ∧ (∀ n, n ∈ repo_names "repos" (demo_world repo_files ∅ 200 [] true)
            ↔ has_sep n = false ∧ glob.star_match ".repo" n = true
              ∧ is_Some (fs (demo_world repo_files ∅ 200 [] true) !! join "repos" [n]))
    ∧ same_but_files (demo_world repo_files ∅ 200 [] true) w'
    ∧ fs w' !! join "out/image" ["repos"] = Some Dir
    ∧ (∀ n, n ∈ repo_names "repos" (demo_world repo_files ∅ 200 [] true) →
            fs w' !! join (join "out/image" ["repos"]) [n]
            = fs (demo_world repo_files ∅ 200 [] true) !! join "repos" [n])
    ∧ (∀ p, os.under (join "out/image" ["repos"]) p = true → is_Some (fs w' !! p) →
            p = join "out/image" ["repos"]
            ∨ ∃ n, n ∈ repo_names "repos" (demo_world repo_files ∅ 200 [] true)
                   ∧ p = join (join "out/image" ["repos"]) [n])
    ∧ (∀ p, os.under (join "out/image" ["repos"]) p = false →
            fs w' !! p = fs (demo_world repo_files ∅ 200 [] true) !! p).
Proof.
  apply (prepare_copies_repo_files "repos" "out/image"
           (demo_world repo_files ∅ 200 [] true)).
  - split; [discriminate | reflexivity].
  - reflexivity.
  - reflexivity.
  - apply no_repo_directories. vm_compute. reflexivity.
  - reflexivity.
  - apply nothing_under. vm_compute. reflexivity.
Defined.

Example prepare_example :
  let '(r, w') := prepare_external_repositories "repos" "out/image"
                    (demo_world repo_files ∅ 200 [] true) in
  r = Ok ["epel"; "jboss"]
  ∧ fs w' !! "out/image/repos/epel.repo" = Some (File one_byte)
  ∧ fs w' !! "out/image/repos/jboss.repo" = Some (File [])
  ∧ fs w' !! "out/image/repos/.hidden.repo" = None
  ∧ fs w' !! "out/image/repos/README" = None
  ∧ fs w' !! "out/image/repos/gone.repo" = None.
Proof. vm_compute. repeat split. Qed.

(** X16. [prepare_external_repositories] refuses to start in two cases,
    and then changes nothing: when the directory of repository
    definitions does not exist it raises [DogenError] naming it; when
    that directory exists but [image_dir/repos] is already there (its
    parent in place) it raises the error of making a directory that
    exists, so a second run needs a [cleanup] first. *)
Theorem prepare_fails_early (repo_files_dir image_dir : string) (w : World) :
  (fs w !! repo_files_dir = None →
   prepare_external_repositories repo_files_dir image_dir w
   = (Raise (DogenError ("Directory '" +:+ repo_files_dir
                         +:+ "' with additional repository definitions doesn't exist!")
               None), w))
  ∧ (is_Some (fs w !! repo_files_dir) →
     is_Some (fs w !! join image_dir ["repos"]) →
     parent_exists w (join image_dir ["repos"]) = true →
     prepare_external_repositories repo_files_dir image_dir w
     = (Raise (OSError (join image_dir ["repos"])), w)).
Proof.
  split; [apply prepare_missing_dir | apply prepare_target_exists].
Qed.

Lemma prepare_fails_early_witness :
  prepare_external_repositories "nowhere" "out/image" (demo_world dirty_files ∅ 200 [] true)
  = (Raise (DogenError
              "Directory 'nowhere' with additional repository definitions doesn't exist!"
              None), demo_world dirty_files ∅ 200 [] true)
  ∧ prepare_external_repositories "out/repo" "out/image"
      (demo_world dirty_files ∅ 200 [] true)
    = (Raise (OSError "out/image/repos"), demo_world dirty_files ∅ 200 [] true).
Proof.
  split.
  - exact (proj1 (prepare_fails_early "nowhere" "out/image"
                    (demo_world dirty_files ∅ 200 [] true)) eq_refl).
  - apply (proj2 (prepare_fails_early "out/repo" "out/image"
                    (demo_world dirty_files ∅ 200 [] true)));
      [by eexists | by eexists | reflexivity].
Defined.

(** X17. A second run straight after a successful one fails: the first
    made [image_dir/repos], so the second raises the error of making a
    directory that exists and leaves the copies of the first as they
    are. *)
Theorem prepare_twice_fails (repo_files_dir image_dir : string) (w : World) :
  plain_dir repo_files_dir →
  glob.has_magic repo_files_dir = false →
  fs w !! repo_files_dir = Some Dir →
  (∀ n, n ∈ repo_names repo_files_dir w → fs w !! join repo_files_dir [n] ≠ Some Dir) →
  parent_exists w (join image_dir ["repos"]) = true →
  (∀ p, os.under (join image_dir ["repos"]) p = true → fs w !! p = None) →
  ∃ added_repos w',
    prepare_external_repositories repo_files_dir image_dir w = (Ok added_repos, w')
    ∧ prepare_external_repositories repo_files_dir image_dir w'
      = (Raise (OSError (join image_dir ["repos"])), w').
Proof.
  intros Hd _ Hdir Hfiles Hparent Hempty.
  destruct (prepare_run repo_files_dir image_dir w Hd Hdir Hfiles Hparent Hempty)
    as (w' & Hrun & Hsame & Htarget & Hcopies & Hframe).
  set (t := join image_dir ["repos"]) in *.
  assert (Ht : plain_dir t) by (by apply join_name_plain).
  assert (Houtside : ∀ p, is_Some (fs w !! p) → fs w' !! p = fs w !! p).
  { intros p Hsome. apply Hframe.
    - intros ->. rewrite (Hempty t (under_self t)) in Hsome. by destruct Hsome.
    - intros n (Hsep & _)%repo_names_plain ->.
      rewrite (Hempty _ (join_name_under t n Ht Hsep)) in Hsome. by destruct Hsome. }
  do 2 eexists. split; [exact Hrun|].
  apply prepare_target_exists.
  - rewrite Houtside; by rewrite Hdir.
  - fold t. by rewrite Htarget.
  - fold t. unfold parent_exists in *.
    destruct (String.eqb (dirname t) ""); [reflexivity|]. cbn [orb] in *.
    destruct (fs w !! dirname t) as [v|] eqn:Hv; [|discriminate].
    by rewrite Houtside, Hv by (by rewrite Hv).
Qed.

Lemma prepare_twice_fails_witness :
  ∃ added_repos w',
    prepare_external_repositories "repos" "out/image" (demo_world repo_files ∅ 200 [] true)
    = (Ok added_repos, w')
    ∧ prepare_external_repositories "repos" "out/image" w'
      = (Raise (OSError (join "out/image" ["repos"])), w').
Proof.
  apply (prepare_twice_fails "repos" "out/image" (demo_world repo_files ∅ 200 [] true)).
  - split; [discriminate | reflexivity].
  - reflexivity.
  - reflexivity.
  - apply no_repo_directories. vm_compute. reflexivity.
  - reflexivity.
  - apply nothing_under. vm_compute. reflexivity.
Defined.

(** X18. [cleanup] undoes [prepare_external_repositories]: after a
    successful run into the image directory of a target, [cleanup] of
    that target (its other two directories absent or directories)
    succeeds and leaves nothing at or below [target/image/repos], which
    is what a further run needs. *)
Theorem cleanup_undoes_prepare (repo_files_dir target : string) (w : World) :
  plain_dir repo_files_dir →
  glob.has_magic repo_files_dir = false →
  fs w !! repo_files_dir = Some Dir →
  (∀ n, n ∈ repo_names repo_files_dir w → fs w !! join repo_files_dir [n] ≠ Some Dir) →
  parent_exists w (join target ["image"; "repos"]) = true →
  (∀ p, os.under (join target ["image"; "repos"]) p = true → fs w !! p = None) →
  absent_or_dir (fs w !! join target ["image"; "modules"]) →
  absent_or_dir (fs w !! join target ["repo"]) →
  ∃ added_repos w' w'',
    prepare_external_repositories repo_files_dir (join target ["image"]) w
    = (Ok added_repos, w')
    ∧ cleanup target w' = (Ok tt, w'')
    ∧ ∀ p, os.under (join target ["image"; "repos"]) p = true → fs w'' !! p = None.
Proof.
  intros Hd _ Hdir Hfiles Hparent Hempty Hmodules Hrepo.
  change (join target ["image"; "repos"]) with (join (join target ["image"]) ["repos"]) in *.
  destruct (prepare_run repo_files_dir (join target ["image"]) w Hd Hdir Hfiles Hparent Hempty)
    as (w' & Hrun & Hsame & Htarget & Hcopies & Hframe).
  change (join (join target ["image"]) ["repos"]) with (join target ["image"; "repos"]) in *.
  destruct (dirty_dirs_each target) as (E1 & E2 & E3).
  rewrite E1 in Hmodules. rewrite E3 in Hrepo. rewrite E2 in *.
  set (b := slashed target) in *.
  assert (Ht : plain_dir (b +:+ "image/repos")).
  { rewrite <- E2. change (join target ["image"; "repos"])
      with (join (join target ["image"]) ["repos"]). by apply join_name_plain. }
  assert (Hkept : ∀ p, os.under (b +:+ "image/repos") p = false → fs w' !! p = fs w !! p).
  { intros p Hunder. apply Hframe.
    - intros ->. by rewrite under_self in Hunder.
    - intros n (Hsep & _)%repo_names_plain ->.
      rewrite join_name_under in Hunder by assumption. discriminate. }
  assert (A1 : absent_or_dir (fs w' !! (b +:+ "image/modules"))).
  { by rewrite Hkept by apply (under_append b "image/repos" "image/modules"). }
  assert (A2 : absent_or_dir (fs w' !! (b +:+ "image/repos"))) by (right; exact Htarget).
  assert (A3 : absent_or_dir (fs w' !! (b +:+ "repo"))).
  { by rewrite Hkept by apply (under_append b "image/repos" "repo"). }
  destruct (sweep_three (b +:+ "image/modules") (b +:+ "image/repos") (b +:+ "repo")
              (under_append b "image/modules" "image/repos")
              (under_append b "image/modules" "repo")
              (under_append b "image/repos" "repo") w' A1 A2 A3) as [Hclean Hlookup].
  exists (map posixpath.splitext_root (repo_names repo_files_dir w)), w'.
  eexists. split; [exact Hrun | split].
  - change (cleanup target w') with (for_each (dirty_dirs target) if_exists_rmtree w').
    rewrite dirty_dirs_paths. exact Hclean.
  - intros p Hunder. rewrite Hlookup. cbn [existsb].
    rewrite Htarget, Hunder. cbn [is_dir andb]. by rewrite orb_true_r.
Qed.

Lemma cleanup_undoes_prepare_witness :
  ∃ added_repos w' w'',
    prepare_external_repositories "repos" (join "out" ["image"])
      (demo_world repo_files ∅ 200 [] true)
    = (Ok added_repos, w')
    ∧ cleanup "out" w' = (Ok tt, w'')
    ∧ ∀ p, os.under (join "out" ["image"; "repos"]) p = true → fs w'' !! p = None.
Proof.
  apply (cleanup_undoes_prepare "repos" "out" (demo_world repo_files ∅ 200 [] true)).
  - split; [discriminate | reflexivity].
  - reflexivity.
  - reflexivity.
  - apply no_repo_directories. vm_compute. reflexivity.
  - reflexivity.
  - apply nothing_under. vm_compute. reflexivity.
  - left. reflexivity.
  - left. reflexivity.
Defined.

(** ** The status of the response *)

(** X19. A fresh download accepts the status 200 and no other: any
    other status, another success code such as 204 or 206 included,
    makes [fetch] raise [DogenError] naming the URL, after the one
    request and with no file written. *)
Theorem fetch_accepts_200_only (a : Artifact.t) (w : World) (u : string)
    (status : Z) (body : bytes) :
  fs w !! destination a w = None →
  fetch_url a w = Some u →
  network w u (ssl_verify (Artifact_class w)) = Ok (Response status body) →
  status ≠ 200%Z →
  ∃ a' w', Artifact.fetch (a, w)
           = (Raise (DogenError ("Could not download file from " +:+ u) None), (a', w'))
           ∧ fs w' = fs w
           ∧ trace w' = (trace w ++ [HttpGet u (ssl_verify (Artifact_class w))])%list.
Proof.
  intros Habsent Hurl Hnet Hstatus.
  destruct (fetch_status_not_200 a w u status body Habsent Hurl Hnet Hstatus)
    as [a' Hfetch].
  exists a', (log (HttpGet u (ssl_verify (Artifact_class w))) w). auto.
Qed.

Lemma fetch_accepts_200_only_witness :
  ∃ a' w', Artifact.fetch (demo_artifact, demo_world {[ "out" := Dir ]} ∅ 204 one_byte true)
           = (Raise (DogenError ("Could not download file from " +:+ "http://host/a.tgz")
                       None), (a', w'))
           ∧ fs w' = {[ "out" := Dir ]}
           ∧ trace w' = [HttpGet "http://host/a.tgz" true].
Proof.
  exact (fetch_accepts_200_only demo_artifact
           (demo_world {[ "out" := Dir ]} ∅ 204 one_byte true) "http://host/a.tgz"
           204 one_byte eq_refl eq_refl eq_refl ltac:(discriminate)).
Defined.

(** ** The target directory of the class *)


